(** * In-N-Out location scraper: extraction and id-space scan

    A shallow embedding of [scrape_innout_locations.py].

    Python [str] values are modelled as Rocq strings, read as sequences of
    code points below 256.  The character classes of the [re] module and of
    [str.strip] are the ones CPython uses on that range.  Regular expressions
    of the source are written as the deterministic matchers they denote; each
    one is given next to the pattern it embeds (in comments the double-quote
    character is written QUOTE). *)

From Stdlib Require Import ZArith NArith Bool List Ascii String Lia.
From Stdlib Require Import Sorted Permutation.
From Stdlib Require Import Numbers.DecimalString Numbers.DecimalZ Numbers.DecimalN.
Import ListNotations.

#[local] Open Scope string_scope.
#[local] Open Scope Z_scope.

(** ** Option sequencing, for the fallible steps of a pattern *)

Definition obind {A B : Type} (o : option A) (k : A -> option B) : option B :=
  match o with
  | Some a => k a
  | None => None
  end.

Notation "x <- e ;; k" := (obind e (fun x => k))
  (at level 61, e at next level, right associativity).
Notation "' p <- e ;; k" := (obind e (fun p => k))
  (at level 61, p pattern, e at next level, right associativity).

Definition is_some {A : Type} (o : option A) : bool :=
  match o with
  | Some _ => true
  | None => false
  end.

(** ** Characters *)

Definition dquote : ascii := "034"%char.
Definition newline : ascii := "010"%char.

(** [str.isspace] and the pattern class [\s] below code point 256:
    TAB..CR, FS..US, SPACE, NEL and NBSP. *)
Definition is_space (c : ascii) : bool :=
  let n := N_of_ascii c in
  (((9 <=? n) && (n <=? 13)) || ((28 <=? n) && (n <=? 32))
   || (n =? 133) || (n =? 160))%N.

(** The whitespace [float] and [int] strip from both ends of their
    argument (CPython 3.11): the separators FS..US are not part of it. *)
Definition is_num_space (c : ascii) : bool :=
  let n := N_of_ascii c in
  (((9 <=? n) && (n <=? 13)) || (n =? 32) || (n =? 133) || (n =? 160))%N.

(** The pattern class [\d] below code point 256: the ten ASCII digits. *)
Definition is_digit (c : ascii) : bool :=
  let n := N_of_ascii c in ((48 <=? n) && (n <=? 57))%N.

Definition digit_val (c : ascii) : N := (N_of_ascii c - 48)%N.

(** ** Python string operations used by the source *)

Module Str.

(** [s.startswith(p)], returning what follows the prefix. *)
Fixpoint strip_prefix (p s : string) : option string :=
  match p with
  | EmptyString => Some s
  | String a p' =>
      match s with
      | EmptyString => None
      | String b s' => if Ascii.eqb a b then strip_prefix p' s' else None
      end
  end.

Definition startswith (p s : string) : bool := is_some (strip_prefix p s).

(** Longest prefix whose characters satisfy [f], and the rest. *)
Fixpoint span (f : ascii -> bool) (s : string) : string * string :=
  match s with
  | EmptyString => (EmptyString, EmptyString)
  | String c s' =>
      if f c then let (a, b) := span f s' in (String c a, b)
      else (EmptyString, s)
  end.

(** [s.partition(sep)] at the first occurrence of [sep]: the text before
    and the text after, or [None] when [sep] does not occur. *)
Fixpoint find (sep s : string) : option (string * string) :=
  match strip_prefix sep s with
  | Some rest => Some (EmptyString, rest)
  | None =>
      match s with
      | EmptyString => None
      | String c s' =>
          match find sep s' with
          | Some (a, b) => Some (String c a, b)
          | None => None
          end
      end
  end.

(** [sep in s]. *)
Definition contains (sep s : string) : bool := is_some (find sep s).

(** [s.lstrip(chars)] and [s.rstrip(chars)], the set given as a predicate. *)
Fixpoint lstrip (f : ascii -> bool) (s : string) : string :=
  match s with
  | EmptyString => EmptyString
  | String c s' => if f c then lstrip f s' else s
  end.

Fixpoint rstrip (f : ascii -> bool) (s : string) : string :=
  match s with
  | EmptyString => EmptyString
  | String c s' =>
      match rstrip f s' with
      | EmptyString => if f c then EmptyString else String c EmptyString
      | r => String c r
      end
  end.

Definition strip_chars (f : ascii -> bool) (s : string) : string :=
  rstrip f (lstrip f s).

(** [s.strip()] *)
Definition strip (s : string) : string := strip_chars is_space s.

(** [s.replace(old, new)] for a non-empty [old]: occurrences are taken left
    to right and do not overlap.  [skip] counts the characters of the
    current occurrence still to be dropped. *)
Fixpoint replace_from (old new : string) (skip : nat) (s : string) : string :=
  match s with
  | EmptyString => EmptyString
  | String c s' =>
      match skip with
      | S k => replace_from old new k s'
      | O =>
          if startswith old s
          then new ++ replace_from old new (String.length old - 1) s'
          else String c (replace_from old new O s')
      end
  end.

Definition replace (old new s : string) : string := replace_from old new O s.

End Str.

(** ** The patterns of the [re] module used by the source *)

Module Re.

(** [re.search]: the matcher is tried at every position from the left, the
    end of the string included. *)
Fixpoint search {A : Type} (m : string -> option A) (s : string) : option A :=
  match m s with
  | Some r => Some r
  | None =>
      match s with
      | EmptyString => None
      | String _ s' => search m s'
      end
  end.

(** The fragment  ([^QUOTE]+)QUOTE : a non-empty run of characters other
    than the quote, then the quote.  The run is greedy; giving characters
    back cannot help, since none of them is a quote. *)
Definition quoted (s : string) : option (string * string) :=
  match Str.span (fun c => negb (Ascii.eqb c dquote)) s with
  | (EmptyString, _) => None
  | (_, EmptyString) => None
  | (run, String _ rest) => Some (run, rest)
  end.

(** name=QUOTE([^QUOTE]+)QUOTE  with [re.search]; group 1. *)
Definition search_attr (name : string) (html : string) : option string :=
  search (fun t =>
            r <- Str.strip_prefix (name ++ "=" ++ String dquote EmptyString) t ;;
            '(g, _) <- quoted r ;;
            Some g) html.

(** open(.*?)close  with [re.search] and [re.S]; group 1.  The lazy group
    ends at the first occurrence of [close]. *)
Definition search_element (open close : string) (html : string) : option string :=
  search (fun t =>
            r <- Str.strip_prefix open t ;;
            '(g, _) <- Str.find close r ;;
            Some g) html.

(** [re.sub] of the pattern  \s+  by a single space. [in_run] tells that
    the previous character was whitespace already replaced. *)
Fixpoint sub_spaces (in_run : bool) (s : string) : string :=
  match s with
  | EmptyString => EmptyString
  | String c s' =>
      if is_space c
      then if in_run then sub_spaces true s' else String " " (sub_spaces true s')
      else String c (sub_spaces false s')
  end.

(** [re.sub] of the pattern  <[^>]+>  by [repl]: a tag opens at a [<] that
    is followed by a non-empty run of characters other than [>] and then a
    [>]; [skip] counts the characters of the current tag still to drop. *)
Fixpoint sub_tags (repl : string) (skip : nat) (s : string) : string :=
  match s with
  | EmptyString => EmptyString
  | String c s' =>
      match skip with
      | S k => sub_tags repl k s'
      | O =>
          if Ascii.eqb c "<" then
            match Str.span (fun d => negb (Ascii.eqb d ">")) s' with
            | (String _ _ as run, String _ _) =>
                repl ++ sub_tags repl (S (String.length run)) s'
            | _ => String c (sub_tags repl O s')
            end
          else String c (sub_tags repl O s')
      end
  end.

(** ^(\d+)  with [re.match]; group 1. *)
Definition match_digits (s : string) : option string :=
  match Str.span is_digit s with
  | (EmptyString, _) => None
  | (d, _) => Some d
  end.

(** [$] without [re.M]: the end of the string, or just before a newline
    that ends the string. *)
Definition at_end (s : string) : bool :=
  match s with
  | EmptyString => true
  | String c EmptyString => Ascii.eqb c newline
  | _ => false
  end.

(** Exactly [n] digits: [\d{n}]. *)
Fixpoint digits_exact (n : nat) (s : string) : option (string * string) :=
  match n with
  | O => Some (EmptyString, s)
  | S k =>
      match s with
      | EmptyString => None
      | String c s' =>
          if is_digit c
          then '(d, r) <- digits_exact k s' ;; Some (String c d, r)
          else None
      end
  end.

(** What follows the comma in the zip pattern:
    \s*(\d{5})(?:-\d{4})?$  ; group 2. *)
Definition zip_tail (s : string) : option string :=
  let (_, r) := Str.span is_space s in
  '(z, r2) <- digits_exact 5 r ;;
  let plain := if at_end r2 then Some z else None in
  match r2 with
  | String c r3 =>
      if Ascii.eqb c "-" then
        match digits_exact 4 r3 with
        | Some (_, r4) => if at_end r4 then Some z else plain
        | None => plain
        end
      else plain
  | EmptyString => plain
  end.

(** ^(.*?),\s*(\d{5})(?:-\d{4})?$  with [re.search]; groups 1 and 2.
    The pattern is anchored, so only position 0 can match.  The lazy group
    grows one character at a time, never over a newline, and stops at the
    first comma after which the rest of the pattern matches. *)
Fixpoint search_zip (s : string) : option (string * string) :=
  match s with
  | EmptyString => None
  | String c s' =>
      match (if Ascii.eqb c "," then zip_tail s' else None) with
      | Some z => Some (EmptyString, z)
      | None =>
          if Ascii.eqb c newline then None
          else '(a, z) <- search_zip s' ;; Some (String c a, z)
      end
  end.

(** The store image pattern with [re.search]; group 1:
    <img src=QUOTE([^QUOTE]+)QUOTE alt=QUOTEIn-N-Out Burger - [^QUOTE]+QUOTE class=QUOTEstore-imageQUOTE *)
Definition search_image (html : string) : option string :=
  let q := String dquote EmptyString in
  search (fun t =>
            r <- Str.strip_prefix ("<img src=" ++ q) t ;;
            '(src, r1) <- quoted r ;;
            r2 <- Str.strip_prefix (" alt=" ++ q ++ "In-N-Out Burger - ") r1 ;;
            '(_, r3) <- quoted r2 ;;
            _ <- Str.strip_prefix (" class=" ++ q ++ "store-image" ++ q) r3 ;;
            Some src) html.

End Re.

(** ** [float(str)]

    The text accepted by Python's [float] and the decimal number it denotes.
    The rounding of that number to a binary64 value is not part of the
    model: a coordinate is kept as the exact decimal that was read. *)

Module PyFloat.

Inductive t : Type :=
  | Nan
  | Inf (neg : bool)
  | Dec (neg : bool) (mantissa : N) (exp10 : Z).

(** Underscores may only stand between two digits; they are dropped. *)
Fixpoint drop_underscores (prev : ascii) (s : string) : option string :=
  match s with
  | EmptyString => if Ascii.eqb prev "_" then None else Some EmptyString
  | String c s' =>
      if Ascii.eqb c "_" then
        if is_digit prev then drop_underscores c s' else None
      else if Ascii.eqb prev "_" && negb (is_digit c) then None
      else r <- drop_underscores c s' ;; Some (String c r)
  end.

Definition lower (c : ascii) : ascii :=
  let n := N_of_ascii c in
  if ((65 <=? n) && (n <=? 90))%N then ascii_of_N (n + 32) else c.

Fixpoint lower_string (s : string) : string :=
  match s with
  | EmptyString => EmptyString
  | String c s' => String (lower c) (lower_string s')
  end.

Fixpoint digits_value (acc : N) (s : string) : N :=
  match s with
  | EmptyString => acc
  | String c s' => digits_value (10 * acc + digit_val c)%N s'
  end.

(** An optional sign; [true] for a minus. *)
Definition sign (s : string) : bool * string :=
  match s with
  | String c s' =>
      if Ascii.eqb c "-" then (true, s')
      else if Ascii.eqb c "+" then (false, s')
      else (false, s)
  | EmptyString => (false, s)
  end.

(** The exponent part: empty, or [e] or [E], an optional sign and at least
    one digit, up to the end of the text. *)
Definition exponent (s : string) : option Z :=
  match s with
  | EmptyString => Some 0
  | String c s' =>
      if Ascii.eqb (lower c) "e" then
        let (neg, r) := sign s' in
        match Str.span is_digit r with
        | (String _ _ as d, EmptyString) =>
            let e := Z.of_N (digits_value 0 d) in
            Some (if neg then - e else e)
        | _ => None
        end
      else None
  end.

(** Digits, an optional point and digits, at least one digit in all, and
    an optional exponent. *)
Definition decimal (neg : bool) (s : string) : option t :=
  let (ip, r) := Str.span is_digit s in
  let (fp, r') :=
    match r with
    | String c r1 =>
        if Ascii.eqb c "." then Str.span is_digit r1 else (EmptyString, r)
    | EmptyString => (EmptyString, r)
    end in
  match ip ++ fp with
  | EmptyString => None
  | ds =>
      e <- exponent r' ;;
      Some (Dec neg (digits_value 0 ds) (e - Z.of_nat (String.length fp)))
  end.

Definition of_string (s : string) : option t :=
  u <- drop_underscores "000"%char (Str.strip_chars is_num_space s) ;;
  let (neg, body) := sign u in
  let w := lower_string body in
  if String.eqb w "inf" || String.eqb w "infinity" then Some (Inf neg)
  else if String.eqb w "nan" then Some Nan
  else decimal neg body.

End PyFloat.

(** ** The record and the extractor *)

Definition BASE : string := "https://locations.in-n-out.com".

Record Location : Type := mkLocation {
  id : string;
  slug : string;
  name : string;
  city_state : string;
  address_line : string;
  zip_code : string;
  latitude : PyFloat.t;
  longitude : PyFloat.t;
  url : string;
  image_url : string
}.

Definition normalize_whitespace (s : string) : string :=
  Str.strip (Re.sub_spaces false s).

(** The path of a url as the extractor computes it:
    [url.replace(BASE, "").strip("/")]. *)
Definition url_path (u : string) : string :=
  Str.strip_chars (Ascii.eqb "/") (Str.replace BASE EmptyString u).

(** The three address fields read from the normalized heading [h3], as the
    record receives them: [(city_state, address_line, zip_code)]. *)
Definition heading_fields (h3 : string) : string * string * string :=
  let (city_state, address_zip) :=
    match Str.find " - " h3 with
    | Some (l, r) => (l, r)
    | None => (h3, EmptyString)
    end in
  let (address_line, zip_code) :=
    match Re.search_zip address_zip with
    | Some (a, z) => (normalize_whitespace a, z)
    | None => (address_zip, EmptyString)
    end in
  (normalize_whitespace city_state, normalize_whitespace address_line, zip_code).

(** The business name read from the title element, when there is one. *)
Definition title_name (title_m : option string) : string :=
  match title_m with
  | Some g =>
      let t := normalize_whitespace (Re.sub_tags EmptyString O g) in
      match Str.find " - " t with
      | Some (l, _) => l
      | None => "In-N-Out Burger"
      end
  | None => "In-N-Out Burger"
  end.

Definition parse_store_page (url html : string) : option Location :=
  let lat_m := Re.search_attr "data-latitude" html in
  let lng_m := Re.search_attr "data-longitude" html in
  let h3_m :=
    Re.search_element
      ("<h3 class=" ++ String dquote "street-address" ++ String dquote ">")
      "</h3>" html in
  let title_m := Re.search_element "<title>" "</title>" html in
  let img_m := Re.search_image html in
  match lat_m, lng_m, h3_m with
  | Some lat_g, Some lng_g, Some h3_g =>
      let path := url_path url in
      match Re.match_digits path with
      | None => None
      | Some store_id =>
          let h3 := normalize_whitespace (Re.sub_tags " " O h3_g) in
          let '(city_state, address_line, zip_code) := heading_fields h3 in
          let name := title_name title_m in
          let image_url := match img_m with Some g => g | None => EmptyString end in
          let image_url :=
            if Str.startswith "/" image_url then BASE ++ image_url else image_url in
          match PyFloat.of_string lat_g with
          | None => None
          | Some lat =>
              match PyFloat.of_string lng_g with
              | None => None
              | Some lng =>
                  Some (mkLocation store_id path name city_state address_line
                                   zip_code lat lng url image_url)
              end
          end
      end
  | _, _, _ => None
  end.

(** ** [str(int)] and [int(str)] *)

(** [str(i)], as in the f-strings of the source. *)
Definition str (i : Z) : string := NilEmpty.string_of_int (Z.to_int i).

(** [int(s)] in base 10: surrounding whitespace, an optional sign, digits
    with single underscores between them. *)
Definition py_int (s : string) : option Z :=
  u <- PyFloat.drop_underscores "000"%char (Str.strip_chars is_num_space s) ;;
  let (neg, body) := PyFloat.sign u in
  match Str.span is_digit body with
  | (String _ _ as d, EmptyString) =>
      let n := Z.of_N (PyFloat.digits_value 0 d) in
      Some (if neg then - n else n)
  | _ => None
  end.

(** ** The result mapping

    A Python [dict] keeps its keys in insertion order, and the output stage
    reads them in that order: the mapping is an association list.
    [d[k] = v] replaces the value of a key already present, in place, and
    appends a new key at the end. *)

Definition dict : Type := list (string * Location).

Fixpoint dict_set (k : string) (v : Location) (d : dict) : dict :=
  match d with
  | [] => [(k, v)]
  | (k', v') :: d' =>
      if String.eqb k' k then (k', v) :: d' else (k', v') :: dict_set k v d'
  end.

Definition keys (d : dict) : list string := map fst d.

(** ** The scanner *)

(** What [s.get(url, timeout=12)] followed by the reads of [r.status_code]
    and [r.text] can do: raise, or return a response.  [final_url] is the
    address the response came from after redirections ([r.url]).  The
    session and its headers are set up before the loop and play no part in
    what follows. *)
Record response : Type := mkResponse {
  status_code : Z;
  text : string;
  final_url : string
}.

Inductive outcome : Type :=
  | Raised
  | Returned (r : response).

(** The observable actions of a run, in the order they happen. *)
Inductive event : Type :=
  | Get (url : string) (timeout : Z)
  | Print (line : string)
  | Sleep (millis : Z).

Record state : Type := mkState {
  found : dict;
  misses : Z;
  trace : list event
}.

Definition init : state := mkState [] 0 [].

Definition store_url (i : Z) : string := BASE ++ "/" ++ str i.

(** The [try] block of the loop: the page body, or the empty string. *)
Definition fetch_html (get : string -> outcome) (url : string) : string :=
  match get url with
  | Returned r => if status_code r =? 200 then text r else EmptyString
  | Raised => EmptyString
  end.

(** [loc] of iteration [i]. *)
Definition probe (get : string -> outcome) (i : Z) : option Location :=
  let url := store_url i in
  let html := fetch_html get url in
  if String.eqb html EmptyString then None else parse_store_page url html.

Definition progress_line (i : Z) (st_found : dict) (st_misses : Z) : string :=
  "checked=" ++ str i ++ " found=" ++ str (Z.of_nat (List.length st_found))
  ++ " misses=" ++ str st_misses.

Definition stop_line (i : Z) (st_misses : Z) : string :=
  "Stopping early after " ++ str st_misses ++ " consecutive misses at id=" ++ str i.

(** One turn of the loop body for id [i]; the boolean tells that the turn
    ended in [break].  The source fixes the floor of the early stop at 300;
    the body is written for any floor. *)
Definition iteration (floor : Z) (get : string -> outcome) (stop : Z)
    (st : state) (i : Z) : state * bool :=
  let loc := probe get i in
  let found' :=
    match loc with
    | Some l => dict_set (id l) l (found st)
    | None => found st
    end in
  let misses' :=
    match loc with
    | Some _ => 0
    | None => misses st + 1
    end in
  let tr := (trace st ++ [Get (store_url i) 12])%list in
  let tr :=
    if i mod 100 =? 0
    then (tr ++ [Print (progress_line i found' misses')])%list
    else tr in
  if (stop <=? misses') && (floor <? i)
  then (mkState found' misses' (tr ++ [Print (stop_line i misses')])%list, true)
  else (mkState found' misses' (tr ++ [Sleep 30])%list, false).

Fixpoint loop (floor : Z) (get : string -> outcome) (stop : Z)
    (ids : list Z) (st : state) : state * bool :=
  match ids with
  | [] => (st, false)
  | i :: rest =>
      let (st', brk) := iteration floor get stop st i in
      if brk then (st', true) else loop floor get stop rest st'
  end.

(** [range(lo, hi)] *)
Definition range (lo hi : Z) : list Z :=
  map (fun k => lo + Z.of_nat k) (seq 0 (Z.to_nat (hi - lo))).

Definition scan (floor : Z) (get : string -> outcome) (max_id stop : Z)
    : state * bool :=
  loop floor get stop (range 1 (max_id + 1)) init.

Definition FLOOR : Z := 300.

Definition scrape_by_ids (get : string -> outcome) (max_id stop : Z) : dict :=
  found (fst (scan FLOOR get max_id stop)).

(** ** The output stage of [main] *)

(** [sorted(items, key=...)] is a stable sort; a stable sort has one
    result, computed here by insertion. *)
Fixpoint insert_by_key {A : Type} (x : Z * A) (l : list (Z * A)) : list (Z * A) :=
  match l with
  | [] => [x]
  | y :: l' => if fst x <=? fst y then x :: l else y :: insert_by_key x l'
  end.

Fixpoint sort_by_key {A : Type} (l : list (Z * A)) : list (Z * A) :=
  match l with
  | [] => []
  | x :: l' => insert_by_key x (sort_by_key l')
  end.

(** The key function [int(kv[0])] applied to every item; [None] when it
    raises on one of them. *)
Fixpoint with_keys (d : dict) : option (list (Z * Location)) :=
  match d with
  | [] => Some []
  | (k, v) :: d' =>
      n <- py_int k ;;
      r <- with_keys d' ;;
      Some ((n, v) :: r)
  end.

(** The [locations] entry of the emitted document. *)
Definition locations (d : dict) : option (list Location) :=
  r <- with_keys d ;; Some (map snd (sort_by_key r)).

(** ** Notions the properties are stated with *)

Fixpoint all_chars (f : ascii -> bool) (s : string) : bool :=
  match s with
  | EmptyString => true
  | String c s' => f c && all_chars f s'
  end.

Definition not_quote (c : ascii) : bool := negb (Ascii.eqb c dquote).

(** The leading run of digits of a text. *)
Definition leading_digits (s : string) : string := fst (Str.span is_digit s).

Definition begins_with_digit (s : string) : bool :=
  match s with
  | String c _ => is_digit c
  | EmptyString => false
  end.

(** The three required elements of a page body: both coordinate markers,
    each holding a text that [float] accepts, and the address heading. *)
Definition lat_marker (html : string) : option string :=
  Re.search_attr "data-latitude" html.

Definition lng_marker (html : string) : option string :=
  Re.search_attr "data-longitude" html.

Definition address_heading (html : string) : option string :=
  Re.search_element
    ("<h3 class=" ++ String dquote "street-address" ++ String dquote ">")
    "</h3>" html.

Definition has_required_fields (html : string) : bool :=
  match lat_marker html, lng_marker html, address_heading html with
  | Some la, Some lo, Some _ =>
      is_some (PyFloat.of_string la) && is_some (PyFloat.of_string lo)
  | _, _, _ => false
  end.

(** Id [i] yields a record. *)
Definition hit (get : string -> outcome) (i : Z) : bool := is_some (probe get i).

(** The number of consecutive misses ending at id [i], counted from id 1
    on: the value of the miss counter once id [i] has been handled. *)
Definition count_miss (get : string -> outcome) (m : Z) (j : Z) : Z :=
  if hit get j then 0 else m + 1.

Definition misses_at (get : string -> outcome) (i : Z) : Z :=
  fold_left (count_miss get) (range 1 (i + 1)) 0.

(** The early-stop condition holds at id [i]. *)
Definition stop_here (floor : Z) (get : string -> outcome) (stop : Z) (i : Z) : bool :=
  (stop <=? misses_at get i) && (floor <? i).

(** The ids [1..n], and the run of the loop over them. *)
Definition ids_upto (n : nat) : list Z := range 1 (Z.of_nat n + 1).

Definition run (floor : Z) (get : string -> outcome) (stop : Z) (n : nat)
    : state * bool :=
  loop floor get stop (ids_upto n) init.

(** The addresses requested in a trace, in order. *)
Fixpoint probed (tr : list event) : list string :=
  match tr with
  | [] => []
  | Get u _ :: r => u :: probed r
  | _ :: r => probed r
  end.

(** Every request of the trace is followed by a delay before the next
    request or the end of the trace; [pending] tells that a request is
    still waiting for its delay. *)
Fixpoint delayed (pending : bool) (tr : list event) : bool :=
  match tr with
  | [] => negb pending
  | Get _ _ :: r => negb pending && delayed true r
  | Sleep _ :: r => delayed false r
  | Print _ :: r => delayed pending r
  end.

(** Whitespace occurs in [s] only as single spaces; [prev] tells that the
    character before [s] was a space. *)
Fixpoint single_spaced (prev : bool) (s : string) : bool :=
  match s with
  | EmptyString => true
  | String c s' =>
      if is_space c
      then Ascii.eqb c " " && negb prev && single_spaced true s'
      else single_spaced false s'
  end.

(** Ascending order of two id texts by their numeric value. *)
Definition numeric_le (a b : string) : Prop :=
  exists x y, py_int a = Some x /\ py_int b = Some y /\ x <= y.

(** A mapping whose keys are the ids of its records, each a text that
    [int] reads. *)
Definition keyed_by_id (d : dict) : Prop :=
  Forall (fun kv => fst kv = id (snd kv) /\ py_int (fst kv) <> None) d.

(** [d'] is [d], or [d] with one binding of a new key added at the end. *)
Definition grows (d d' : dict) : Prop :=
  d' = d \/
  exists loc, ~ In (id loc) (keys d) /\ d' = (d ++ [(id loc, loc)])%list.

(** ** Sample inputs *)

Definition quote_text (s : string) : string :=
  String dquote s ++ String dquote EmptyString.

(** A store page holding every element the extractor looks for. *)
Definition sample_page : string :=
  "<html><head><title>In-N-Out Burger - Los Angeles</title></head><body>"
  ++ "<div data-latitude=" ++ quote_text "34.0522"
  ++ " data-longitude=" ++ quote_text "-118.2437" ++ "></div>"
  ++ "<h3 class=" ++ quote_text "street-address"
  ++ "><span>Los Angeles, CA</span> -
      123 Main St,   90001</h3>"
  ++ "<img src=" ++ quote_text "/img/store.jpg"
  ++ " alt=" ++ quote_text "In-N-Out Burger - Los Angeles"
  ++ " class=" ++ quote_text "store-image" ++ "></body></html>".

(** A service that fails on every request. *)
Definition never_answers (u : string) : outcome := Raised.

(** A service that answers every request with the given status and body. *)
Definition answers_with (status : Z) (body : string) (u : string) : outcome :=
  Returned (mkResponse status body u).

(** A service that serves the sample page at the ids satisfying [p] and
    fails elsewhere. *)
Definition serves (p : Z -> bool) (u : string) : outcome :=
  match py_int (url_path u) with
  | Some i => if p i then Returned (mkResponse 200 sample_page u) else Raised
  | None => Raised
  end.

Definition sample_location (i : string) : Location :=
  mkLocation i i "In-N-Out Burger" "Los Angeles, CA" "123 Main St" "90001"
             (PyFloat.Dec false 340522 (-4)) (PyFloat.Dec true 1182437 (-4))
             (BASE ++ "/" ++ i) EmptyString.

(** The mapping of the sort-order example: ids 2, 10, 1 in insertion order. *)
Definition sample_found : dict :=
  [("2", sample_location "2"); ("10", sample_location "10");
   ("1", sample_location "1")].

(** A store page whose heading has no separator, no title and no image. *)
Definition plain_page : string :=
  "<div data-latitude=" ++ quote_text "33.9" ++ " data-longitude="
  ++ quote_text "-117.5" ++ "></div><h3 class=" ++ quote_text "street-address"
  ++ ">123 Main St</h3>".

(** A store page whose title gives a name of its own. *)
Definition titled_page : string :=
  "<title> Store   12 - Los Angeles - CA</title><div data-latitude="
  ++ quote_text "33.9" ++ " data-longitude=" ++ quote_text "-117.5"
  ++ "></div><h3 class=" ++ quote_text "street-address"
  ++ ">Los Angeles, CA - 1 Main St, 90001</h3>".

(** A service that answers only the request for id 5, with the sample page. *)
Definition serves_only_5 : string -> outcome := serves (fun i => i =? 5).

(** The outcome of a request with the final address of the response erased. *)
Definition forget_final_url (o : outcome) : outcome :=
  match o with
  | Returned r => Returned (mkResponse (status_code r) (text r) EmptyString)
  | Raised => Raised
  end.

(** ** Notions for the further properties *)

Definition begins_with (f : ascii -> bool) (s : string) : bool :=
  match s with
  | String c _ => f c
  | EmptyString => false
  end.

Fixpoint ends_with (f : ascii -> bool) (s : string) : bool :=
  match s with
  | EmptyString => false
  | String c s' =>
      match s' with
      | EmptyString => f c
      | _ => ends_with f s'
      end
  end.

(** A text whose only whitespace is single spaces between other
    characters. *)
Definition tidy (s : string) : bool :=
  single_spaced false s && negb (begins_with is_space s)
  && negb (ends_with is_space s).

(** The optional extension of a zip code: nothing, or a dash and four
    digits. *)
Definition zip_extension (e : string) : bool :=
  match e with
  | EmptyString => true
  | String c d =>
      Ascii.eqb c "-" && Nat.eqb (String.length d) 4 && all_chars is_digit d
  end.

(** The bindings of the records found at the ids of a list, in order. *)
Definition collect (get : string -> outcome) (ids : list Z) : dict :=
  flat_map (fun j => match probe get j with
                     | Some l => [(id l, l)]
                     | None => []
                     end) ids.

(** The document [main] builds; its serialization and the write to disk
    are not modelled.  [now] is the text of the clock reading, and a run
    in which the sort key raises gives [None]. *)
Record document : Type := mkDocument {
  doc_source : string;
  doc_generated_at : string;
  doc_count : Z;
  doc_locations : list Location
}.

Definition main (get : string -> outcome) (now : string) : option document :=
  let found := scrape_by_ids get 1200 180 in
  locs <- locations found ;;
  Some (mkDocument "https://locations.in-n-out.com/" now
                   (Z.of_nat (List.length found)) locs).

(** The characters the tail of the zip pattern can read. *)
Definition zip_char (c : ascii) : bool :=
  is_space c || is_digit c || Ascii.eqb c "-".

Definition not_newline (c : ascii) : bool := negb (Ascii.eqb c newline).

(** The events of the turn for id [i], told from the answers of the
    service alone: the request, the progress line at every hundredth id
    with the number of records found so far and the count of consecutive
    misses, then the stop message or the delay. *)
Definition turn_events (get : string -> outcome) (stop : Z) (i : Z) : list event :=
  (Get (store_url i) 12
   :: (if i mod 100 =? 0
       then [Print (progress_line i (collect get (range 1 (i + 1)))
                                  (misses_at get i))]
       else [])
   ++ (if stop_here FLOOR get stop i
       then [Print (stop_line i (misses_at get i))]
       else [Sleep 30]))%list.

(** * Properties *)

(** ** Texts *)

Lemma span_split (f : ascii -> bool) (s : string) :
  s = fst (Str.span f s) ++ snd (Str.span f s).
Proof.
  induction s as [|c s IH]; simpl; [reflexivity|].
  destruct (f c); [|reflexivity].
  destruct (Str.span f s) as [a b]; simpl in *. now rewrite <- IH.
Qed.

Lemma span_run (f : ascii -> bool) (s : string) :
  all_chars f (fst (Str.span f s)) = true.
Proof.
  induction s as [|c s IH]; simpl; [reflexivity|].
  destruct (f c) eqn:E; [|reflexivity].
  destruct (Str.span f s) as [a b]; simpl in *. now rewrite E.
Qed.

Lemma span_rest (f : ascii -> bool) (s : string) :
  match snd (Str.span f s) with
  | String c _ => f c = false
  | EmptyString => True
  end.
Proof.
  induction s as [|c s IH]; simpl; [exact I|].
  destruct (f c) eqn:E; [|exact E].
  destruct (Str.span f s) as [a b]; simpl in *. exact IH.
Qed.

Lemma span_all (f : ascii -> bool) (s : string) :
  all_chars f s = true -> Str.span f s = (s, EmptyString).
Proof.
  induction s as [|c s IH]; simpl; [reflexivity|].
  intros H. apply andb_prop in H as [Hc Hs]. now rewrite Hc, (IH Hs).
Qed.

(** [leading_digits s] is the longest prefix of [s] made of digits. *)
Lemma leading_digits_spec (s : string) :
  exists rest,
    s = leading_digits s ++ rest /\
    all_chars is_digit (leading_digits s) = true /\
    begins_with_digit rest = false.
Proof.
  exists (snd (Str.span is_digit s)). unfold leading_digits.
  repeat split; [apply span_split|apply span_run|].
  pose proof (span_rest is_digit s) as H.
  now destruct (snd (Str.span is_digit s)).
Qed.

Lemma match_digits_leading (s d : string) :
  Re.match_digits s = Some d -> d = leading_digits s /\ begins_with_digit s = true.
Proof.
  unfold Re.match_digits, leading_digits.
  destruct s as [|c s]; simpl; [discriminate|].
  destruct (is_digit c); [|discriminate].
  destruct (Str.span is_digit s) as [a b]; simpl.
  intros [= <-]. now split.
Qed.

Lemma match_digits_none (s : string) :
  Re.match_digits s = None <-> begins_with_digit s = false.
Proof.
  unfold Re.match_digits.
  destruct s as [|c s]; simpl; [now split|].
  destruct (is_digit c); [|now split].
  destruct (Str.span is_digit s) as [a b]. now split.
Qed.

(** ** What the searches find *)

Lemma append_assoc (a b c : string) : (a ++ b) ++ c = a ++ b ++ c.
Proof. induction a as [|x a IH]; simpl; [reflexivity|now rewrite IH]. Qed.

Lemma strip_prefix_some (p s r : string) :
  Str.strip_prefix p s = Some r -> s = p ++ r.
Proof.
  revert s. induction p as [|a p IH]; intros s; simpl.
  - now intros [= ->].
  - destruct s as [|b s]; [discriminate|].
    destruct (Ascii.eqb_spec a b) as [->|_]; [|discriminate].
    intros H. now rewrite (IH _ H).
Qed.

Lemma strip_prefix_append (p s : string) : Str.strip_prefix p (p ++ s) = Some s.
Proof.
  induction p as [|c p IH]; simpl; [reflexivity|]. now rewrite Ascii.eqb_refl.
Qed.

Lemma find_some (sep s a b : string) :
  Str.find sep s = Some (a, b) -> s = a ++ sep ++ b.
Proof.
  revert a. induction s as [|c s IH]; intros a.
  - cbn [Str.find]. destruct (Str.strip_prefix sep EmptyString) as [r|] eqn:E;
      [|discriminate].
    intros [= <- <-]. now apply strip_prefix_some in E.
  - cbn [Str.find]. destruct (Str.strip_prefix sep (String c s)) as [r|] eqn:E.
    + intros [= <- <-]. now apply strip_prefix_some in E.
    + destruct (Str.find sep s) as [[a' b']|]; [|discriminate].
      intros [= <- <-]. simpl. now rewrite <- (IH a' eq_refl).
Qed.

Lemma find_present (sep a b : string) : Str.find sep (a ++ sep ++ b) <> None.
Proof.
  induction a as [|c a IH].
  - cbn [append]. destruct (sep ++ b) as [|x t] eqn:E; cbn [Str.find];
      rewrite <- E, strip_prefix_append; discriminate.
  - cbn [append Str.find].
    destruct (Str.strip_prefix sep (String c (a ++ sep ++ b))); [discriminate|].
    destruct (Str.find sep (a ++ sep ++ b)) as [[x y]|]; [discriminate|].
    now contradiction IH.
Qed.

Lemma search_some {A : Type} (m : string -> option A) (s : string) (r : A) :
  Re.search m s = Some r -> exists pre t, s = pre ++ t /\ m t = Some r.
Proof.
  induction s as [|c s IH]; cbn [Re.search].
  - destruct (m EmptyString) eqn:E; [|discriminate].
    intros [= <-]. now exists EmptyString, EmptyString.
  - destruct (m (String c s)) eqn:E.
    + intros [= <-]. now exists EmptyString, (String c s).
    + intros H. destruct (IH H) as (pre & t & -> & Ht).
      now exists (String c pre), t.
Qed.

Lemma search_present {A : Type} (m : string -> option A) (pre t : string) :
  m t <> None -> Re.search m (pre ++ t) <> None.
Proof.
  intros Ht. induction pre as [|c pre IH]; cbn [append].
  - destruct t; cbn [Re.search]; destruct (m _); congruence.
  - cbn [Re.search]. destruct (m (String c (pre ++ t))); [discriminate|exact IH].
Qed.

Lemma quoted_some (s g rest : string) :
  Re.quoted s = Some (g, rest) ->
  s = g ++ String dquote rest /\ g <> EmptyString /\ all_chars not_quote g = true.
Proof.
  unfold Re.quoted. fold not_quote.
  pose proof (span_split not_quote s) as Hs.
  pose proof (span_run not_quote s) as Hr.
  pose proof (span_rest not_quote s) as Ht.
  destruct (Str.span not_quote s) as [[|c run] [|d t]]; try discriminate.
  intros [= <- <-]. cbn [fst snd] in *.
  unfold not_quote in Ht. apply negb_false_iff, Ascii.eqb_eq in Ht. subst d.
  repeat split; [exact Hs|discriminate|exact Hr].
Qed.

Lemma span_stop (f : ascii -> bool) (g : string) (c : ascii) (rest : string) :
  all_chars f g = true -> f c = false ->
  Str.span f (g ++ String c rest) = (g, String c rest).
Proof.
  intros Hg Hc. induction g as [|x g IH]; simpl.
  - now rewrite Hc.
  - simpl in Hg. apply andb_prop in Hg as [Hx Hg]. now rewrite Hx, (IH Hg).
Qed.

Lemma quoted_present (g rest : string) :
  g <> EmptyString -> all_chars not_quote g = true ->
  Re.quoted (g ++ String dquote rest) = Some (g, rest).
Proof.
  intros Hne Hg. unfold Re.quoted. fold not_quote.
  rewrite (span_stop not_quote g dquote rest Hg) by reflexivity.
  now destruct g.
Qed.

(** A marker is found exactly when the body holds the attribute name, the
    equals sign and, between two quotes, a non-empty text without quote. *)
Lemma search_attr_iff (name html : string) :
  (exists g, Re.search_attr name html = Some g) <->
  (exists pre g post,
     html = pre ++ (name ++ "=" ++ String dquote EmptyString)
                ++ g ++ String dquote post /\
     g <> EmptyString /\ all_chars not_quote g = true).
Proof.
  unfold Re.search_attr. split.
  - intros [g H]. apply search_some in H as (pre & t & -> & Ht).
    destruct (Str.strip_prefix _ t) as [r|] eqn:Er; [|discriminate].
    cbn [obind] in Ht. destruct (Re.quoted r) as [[g' rest]|] eqn:Eq;
      [|discriminate].
    cbn [obind] in Ht. injection Ht as ->.
    apply strip_prefix_some in Er. apply quoted_some in Eq as (-> & Hne & Hg).
    exists pre, g, rest. now rewrite Er.
  - intros (pre & g & post & -> & Hne & Hg).
    destruct (Re.search _ _) as [x|] eqn:E; [now exists x|].
    exfalso. revert E. apply search_present.
    rewrite strip_prefix_append. cbn [obind].
    rewrite (quoted_present g post Hne Hg). discriminate.
Qed.

(** An element is found exactly when the body holds its opening text and,
    somewhere after it, its closing text. *)
Lemma search_element_iff (open close html : string) :
  (exists g, Re.search_element open close html = Some g) <->
  (exists pre g post, html = pre ++ open ++ g ++ close ++ post).
Proof.
  unfold Re.search_element. split.
  - intros [g H]. apply search_some in H as (pre & t & -> & Ht).
    destruct (Str.strip_prefix open t) as [r|] eqn:Er; [|discriminate].
    cbn [obind] in Ht. destruct (Str.find close r) as [[g' rest]|] eqn:Ef;
      [|discriminate].
    apply strip_prefix_some in Er. apply find_some in Ef.
    exists pre, g', rest. now rewrite Er, Ef.
  - intros (pre & g & post & ->).
    destruct (Re.search _ _) as [x|] eqn:E; [now exists x|].
    exfalso. revert E. apply search_present.
    rewrite strip_prefix_append. cbn [obind].
    pose proof (find_present close g post) as Hf.
    destruct (Str.find close (g ++ close ++ post)) as [[a b]|];
      [discriminate|contradiction].
Qed.

(** ** The extractor *)

(** What the extractor returns, read off its two guards and the two
    conversions. *)
Lemma parse_store_page_some (u html : string) (r : Location) :
  parse_store_page u html = Some r ->
  exists la lo h,
    lat_marker html = Some la /\ lng_marker html = Some lo /\
    address_heading html = Some h /\
    PyFloat.of_string la = Some (latitude r) /\
    PyFloat.of_string lo = Some (longitude r) /\
    Re.match_digits (url_path u) = Some (id r) /\
    heading_fields (normalize_whitespace (Re.sub_tags " " O h))
      = (city_state r, address_line r, zip_code r) /\
    slug r = url_path u /\ url r = u.
Proof.
  unfold parse_store_page, lat_marker, lng_marker, address_heading.
  destruct (Re.search_attr "data-latitude" html) as [la|]; [|discriminate].
  destruct (Re.search_attr "data-longitude" html) as [lo|]; [|discriminate].
  destruct (Re.search_element _ "</h3>" html) as [h|]; [|discriminate].
  destruct (Re.match_digits (url_path u)) as [d|]; [|discriminate].
  destruct (heading_fields _) as [[cs al] zc] eqn:Eh.
  destruct (PyFloat.of_string la) as [x|] eqn:Ex; [|discriminate].
  destruct (PyFloat.of_string lo) as [y|] eqn:Ey; [|discriminate].
  intros [= <-]. exists la, lo, h. simpl.
  rewrite Ex, Ey, Eh. repeat split; reflexivity.
Qed.

Lemma parse_store_page_is_some (url html : string) :
  is_some (parse_store_page url html)
  = has_required_fields html && begins_with_digit (url_path url).
Proof.
  unfold parse_store_page, has_required_fields, lat_marker, lng_marker,
    address_heading.
  destruct (Re.search_attr "data-latitude" html) as [la|]; [|reflexivity].
  destruct (Re.search_attr "data-longitude" html) as [lo|]; [|reflexivity].
  destruct (Re.search_element _ "</h3>" html) as [h|]; [|reflexivity].
  destruct (Re.match_digits (url_path url)) as [d|] eqn:Ed.
  - apply match_digits_leading in Ed as [_ ->].
    destruct (heading_fields _) as [[cs al] zc].
    destruct (PyFloat.of_string la), (PyFloat.of_string lo); reflexivity.
  - apply match_digits_none in Ed. rewrite Ed. now rewrite andb_false_r.
Qed.

(** ** Decimal texts and the url of a store *)

Lemma digit_not_slash (c : ascii) : is_digit c = true -> Ascii.eqb "/" c = false.
Proof.
  destruct c as [[|] [|] [|] [|] [|] [|] [|] [|]]; vm_compute; congruence.
Qed.

Lemma digit_not_h (c : ascii) : is_digit c = true -> Ascii.eqb "h" c = false.
Proof.
  destruct c as [[|] [|] [|] [|] [|] [|] [|] [|]]; vm_compute; congruence.
Qed.

Lemma all_chars_weaken (f g : ascii -> bool) (s : string) :
  (forall c, f c = true -> g c = true) ->
  all_chars f s = true -> all_chars g s = true.
Proof.
  intros Hfg. induction s as [|c s IH]; simpl; [reflexivity|].
  intros H. apply andb_prop in H as [Hc Hs]. now rewrite (Hfg _ Hc), IH.
Qed.

Lemma string_of_uint_digits (d : Decimal.uint) :
  all_chars is_digit (NilEmpty.string_of_uint d) = true.
Proof. induction d; simpl; auto. Qed.

Lemma str_digits (i : Z) :
  0 <= i -> all_chars is_digit (str i) = true /\ begins_with_digit (str i) = true.
Proof.
  intros Hi. destruct i as [|p|p]; [now vm_compute| |lia].
  unfold str. cbn [Z.to_int NilEmpty.string_of_int].
  pose proof (string_of_uint_digits (Pos.to_uint p)) as Hd.
  pose proof (DecimalPos.Unsigned.to_uint_nonnil p) as Hn.
  split; [exact Hd|].
  destruct (Pos.to_uint p); try congruence; reflexivity.
Qed.

Lemma str_inj (i j : Z) : str i = str j -> i = j.
Proof.
  unfold str. intros H. apply DecimalZ.to_int_inj.
  apply (f_equal NilEmpty.int_of_string) in H.
  rewrite !NilEmpty.isi in H. congruence.
Qed.

Lemma replace_from_skip (old new p s : string) :
  Str.replace_from old new (String.length p) (p ++ s)
  = Str.replace_from old new O s.
Proof. induction p as [|c p IH]; simpl; [reflexivity|exact IH]. Qed.

Lemma replace_prefix (c : ascii) (o new s : string) :
  Str.replace (String c o) new (String c o ++ s)
  = new ++ Str.replace (String c o) new s.
Proof.
  unfold Str.replace.
  change (String c o ++ s) with (String c (o ++ s)).
  cbn [Str.replace_from]. unfold Str.startswith.
  change (String c (o ++ s)) with (String c o ++ s).
  rewrite strip_prefix_append. cbn [is_some String.length].
  replace (S (String.length o) - 1)%nat with (String.length o) by lia.
  now rewrite replace_from_skip.
Qed.

Lemma replace_absent (c : ascii) (o new s : string) :
  all_chars (fun x => negb (Ascii.eqb c x)) s = true ->
  Str.replace (String c o) new s = s.
Proof.
  unfold Str.replace. induction s as [|a s IH]; simpl; [reflexivity|].
  intros H. apply andb_prop in H as [Ha Hs].
  unfold Str.startswith. cbn [Str.strip_prefix].
  apply negb_true_iff in Ha. rewrite Ha. cbn [is_some]. now rewrite IH.
Qed.

Lemma rstrip_none (f : ascii -> bool) (s : string) :
  all_chars (fun c => negb (f c)) s = true -> Str.rstrip f s = s.
Proof.
  induction s as [|c s IH]; simpl; [reflexivity|].
  intros H. apply andb_prop in H as [Hc Hs]. rewrite (IH Hs).
  apply negb_true_iff in Hc. rewrite Hc. now destruct s.
Qed.

(** The path of the address built for id [i] is the decimal text of [i]. *)
Lemma url_path_store_url (i : Z) : 0 <= i -> url_path (store_url i) = str i.
Proof.
  intros Hi. destruct (str_digits i Hi) as [Hd Hb].
  unfold url_path, store_url.
  change BASE with (String "h" "ttps://locations.in-n-out.com").
  rewrite replace_prefix. cbn [append].
  rewrite replace_absent.
  - unfold Str.strip_chars. cbn [Str.lstrip]. rewrite Ascii.eqb_refl.
    destruct (str i) as [|c s] eqn:E; [discriminate|].
    cbn [begins_with_digit] in Hb. cbn [Str.lstrip].
    rewrite (digit_not_slash c Hb).
    apply rstrip_none. revert Hd. apply all_chars_weaken.
    intros x Hx. now rewrite (digit_not_slash x Hx).
  - cbn [all_chars]. apply andb_true_intro. split; [reflexivity|].
    revert Hd. apply all_chars_weaken.
    intros x Hx. now rewrite (digit_not_h x Hx).
Qed.

Lemma match_digits_str (i : Z) : 0 <= i -> Re.match_digits (str i) = Some (str i).
Proof.
  intros Hi. destruct (str_digits i Hi) as [Hd Hb].
  unfold Re.match_digits. rewrite (span_all _ _ Hd).
  destruct (str i); [discriminate|reflexivity].
Qed.

(** The record of iteration [i] carries the id, path and address of [i]. *)
Lemma probe_some (get : string -> outcome) (i : Z) (loc : Location) :
  1 <= i -> probe get i = Some loc ->
  id loc = str i /\ slug loc = str i /\ url loc = store_url i.
Proof.
  intros Hi. unfold probe.
  destruct (String.eqb _ _); [discriminate|].
  intros H. apply parse_store_page_some in H
    as (la & lo & h & _ & _ & _ & _ & _ & Hid & _ & Hslug & Hurl).
  rewrite url_path_store_url in Hid, Hslug by lia.
  rewrite match_digits_str in Hid by lia. now injection Hid as <-.
Qed.

(** ** Whitespace normalization *)

Lemma sub_spaces_single (b : bool) (s : string) :
  single_spaced b (Re.sub_spaces b s) = true.
Proof.
  revert b. induction s as [|c s IH]; intros b; simpl; [reflexivity|].
  destruct (is_space c) eqn:E.
  - destruct b; [apply IH|]. simpl. apply IH.
  - simpl. rewrite E. apply IH.
Qed.

Lemma sub_spaces_fix (b : bool) (s : string) :
  single_spaced b s = true -> Re.sub_spaces b s = s.
Proof.
  revert b. induction s as [|c s IH]; intros b; simpl; [reflexivity|].
  destruct (is_space c) eqn:E.
  - intros H. apply andb_prop in H as [H Hs]. apply andb_prop in H as [Hc Hb].
    apply Ascii.eqb_eq in Hc. subst c.
    destruct b; [discriminate|]. now rewrite (IH _ Hs).
  - intros H. now rewrite (IH _ H).
Qed.

Lemma single_spaced_weaken (b : bool) (s : string) :
  single_spaced b s = true -> single_spaced false s = true.
Proof.
  destruct s as [|c s]; simpl; [reflexivity|].
  destruct (is_space c); [|trivial].
  intros H. apply andb_prop in H as [H Hs]. apply andb_prop in H as [Hc _].
  now rewrite Hc, Hs.
Qed.

Lemma lstrip_single (b : bool) (s : string) :
  single_spaced b s = true -> single_spaced false (Str.lstrip is_space s) = true.
Proof.
  revert b. induction s as [|c s IH]; intros b; [reflexivity|].
  intros H. cbn [Str.lstrip]. destruct (is_space c) eqn:E.
  - simpl in H. rewrite E in H. apply andb_prop in H as [_ Hs]. now apply (IH true).
  - now apply (single_spaced_weaken b).
Qed.

Lemma rstrip_single (b : bool) (s : string) :
  single_spaced b s = true -> single_spaced b (Str.rstrip is_space s) = true.
Proof.
  revert b. induction s as [|c s IH]; intros b; [reflexivity|].
  intros H. cbn [Str.rstrip].
  destruct (Str.rstrip is_space s) as [|d r] eqn:Er.
  - destruct (is_space c) eqn:E; [reflexivity|]. simpl. now rewrite E.
  - simpl in H |- *. destruct (is_space c).
    + apply andb_prop in H as [H Hs]. rewrite H. apply (IH true Hs).
    + apply (IH false H).
Qed.

Lemma lstrip_head (f : ascii -> bool) (s : string) :
  match Str.lstrip f s with
  | String c _ => f c = false
  | EmptyString => True
  end.
Proof.
  induction s as [|c s IH]; simpl; [exact I|].
  destruct (f c) eqn:E; [exact IH|exact E].
Qed.

Lemma rstrip_idem (f : ascii -> bool) (s : string) :
  Str.rstrip f (Str.rstrip f s) = Str.rstrip f s.
Proof.
  induction s as [|c s IH]; [reflexivity|]. cbn [Str.rstrip].
  destruct (Str.rstrip f s) as [|d r] eqn:Er.
  - destruct (f c) eqn:E; [reflexivity|]. simpl. now rewrite E.
  - cbn [Str.rstrip] in *. now rewrite IH.
Qed.

Lemma strip_chars_idem (f : ascii -> bool) (s : string) :
  Str.strip_chars f (Str.strip_chars f s) = Str.strip_chars f s.
Proof.
  unfold Str.strip_chars.
  pose proof (lstrip_head f s) as Hh.
  destruct (Str.lstrip f s) as [|c v] eqn:Ev; [reflexivity|].
  assert (Hl : Str.lstrip f (Str.rstrip f (String c v)) = Str.rstrip f (String c v)).
  { cbn [Str.rstrip]. destruct (Str.rstrip f v); rewrite ?Hh; simpl; now rewrite Hh. }
  rewrite Hl. apply rstrip_idem.
Qed.

Lemma normalize_whitespace_idem (s : string) :
  normalize_whitespace (normalize_whitespace s) = normalize_whitespace s.
Proof.
  unfold normalize_whitespace at 1.
  rewrite sub_spaces_fix.
  - unfold normalize_whitespace, Str.strip. apply strip_chars_idem.
  - unfold normalize_whitespace, Str.strip, Str.strip_chars.
    apply rstrip_single. apply (lstrip_single false). apply sub_spaces_single.
Qed.

Lemma heading_fields_example :
  heading_fields "Los Angeles, CA - 123 Main St, 90001"
  = ("Los Angeles, CA", "123 Main St", "90001").
Proof. vm_compute. reflexivity. Qed.

Lemma heading_without_separator (h : string) :
  normalize_whitespace h = h -> Str.contains " - " h = false ->
  heading_fields h = (h, EmptyString, EmptyString).
Proof.
  unfold Str.contains, heading_fields. intros Hn Hc.
  destruct (Str.find " - " h) as [[l r]|]; [discriminate|].
  cbn [Re.search_zip]. now rewrite Hn.
Qed.

(** ** The scan *)

Lemma probed_app (a b : list event) : probed (a ++ b) = (probed a ++ probed b)%list.
Proof.
  induction a as [|e a IH]; simpl; [reflexivity|].
  destruct e; simpl; now rewrite IH.
Qed.

Lemma delayed_app (p : bool) (a b : list event) :
  delayed p a = true -> delayed p (a ++ b) = delayed false b.
Proof.
  revert p. induction a as [|e a IH]; intros p; simpl.
  - now destruct p.
  - destruct e; intros H.
    + apply andb_prop in H as [Hp Ha]. rewrite Hp. now apply IH.
    + now apply IH.
    + now apply IH.
Qed.

Lemma append_inj_l (p a b : string) : p ++ a = p ++ b -> a = b.
Proof. induction p as [|c p IH]; simpl; [trivial|]. intros [= H]. auto. Qed.

Lemma store_url_inj (i j : Z) : store_url i = store_url j -> i = j.
Proof.
  unfold store_url. intros H. apply append_inj_l in H.
  apply append_inj_l in H. now apply str_inj.
Qed.

Lemma range_upto (m : Z) : range 1 (m + 1) = ids_upto (Z.to_nat m).
Proof.
  unfold ids_upto, range. do 2 f_equal. lia.
Qed.

Lemma ids_upto_S (n : nat) : ids_upto (S n) = (ids_upto n ++ [Z.of_nat (S n)])%list.
Proof.
  unfold ids_upto, range.
  replace (Z.to_nat (Z.of_nat (S n) + 1 - 1)) with (S n) by lia.
  replace (Z.to_nat (Z.of_nat n + 1 - 1)) with n by lia.
  rewrite seq_S, map_app. cbn [map Nat.add]. do 2 f_equal. lia.
Qed.

Lemma in_ids_upto (n : nat) (j : Z) : In j (ids_upto n) <-> 1 <= j <= Z.of_nat n.
Proof.
  unfold ids_upto, range. rewrite in_map_iff. split.
  - intros (k & <- & Hk). apply in_seq in Hk.
    replace (Z.to_nat (Z.of_nat n + 1 - 1)) with n in Hk by lia. lia.
  - intros Hj. exists (Z.to_nat (j - 1)). split; [cbv beta; lia|].
    apply in_seq. replace (Z.to_nat (Z.of_nat n + 1 - 1)) with n by lia. lia.
Qed.

Lemma misses_at_S (get : string -> outcome) (n : nat) :
  misses_at get (Z.of_nat (S n))
  = count_miss get (misses_at get (Z.of_nat n)) (Z.of_nat (S n)).
Proof.
  unfold misses_at. fold (ids_upto (S n)). fold (ids_upto n).
  now rewrite ids_upto_S, fold_left_app.
Qed.

Lemma NoDup_snoc {A : Type} (a : A) (l : list A) :
  NoDup l -> ~ In a l -> NoDup (l ++ [a]).
Proof.
  induction 1 as [|x l Hx Hl IH]; simpl; intros Ha.
  - constructor; [intros []|constructor].
  - constructor.
    + intros Hin. apply in_app_or in Hin as [Hin|[->|[]]]; [now apply Hx|].
      apply Ha. now left.
    + apply IH. intros Hin. apply Ha. now right.
Qed.

Lemma dict_set_fresh (k : string) (v : Location) (d : dict) :
  ~ In k (keys d) -> dict_set k v d = (d ++ [(k, v)])%list.
Proof.
  induction d as [|[k' v'] d IH]; simpl; [reflexivity|].
  intros H. destruct (String.eqb_spec k' k) as [->|_].
  - exfalso. apply H. now left.
  - rewrite IH; [reflexivity|]. intros Hin. apply H. now right.
Qed.

Section Loop.

Variables (floor : Z) (get : string -> outcome) (stop : Z).

Lemma loop_app (l1 l2 : list Z) (st : state) :
  loop floor get stop (l1 ++ l2) st
  = if snd (loop floor get stop l1 st)
    then loop floor get stop l1 st
    else loop floor get stop l2 (fst (loop floor get stop l1 st)).
Proof.
  revert st. induction l1 as [|i l1 IH]; intros st; simpl; [reflexivity|].
  destruct (iteration floor get stop st i) as [st' [|]]; simpl; [reflexivity|].
  apply IH.
Qed.

(** The state after the turn for id [i]. *)
Lemma iteration_misses (st : state) (i : Z) :
  misses (fst (iteration floor get stop st i)) = count_miss get (misses st) i.
Proof.
  unfold iteration, count_miss, hit.
  destruct (probe get i);
    destruct (_ && _); reflexivity.
Qed.

Lemma iteration_break (st : state) (i : Z) :
  snd (iteration floor get stop st i)
  = (stop <=? count_miss get (misses st) i) && (floor <? i).
Proof.
  unfold iteration, count_miss, hit.
  destruct (probe get i); cbn [is_some];
    destruct (_ && _); reflexivity.
Qed.

Lemma iteration_found (st : state) (i : Z) :
  found (fst (iteration floor get stop st i))
  = match probe get i with
    | Some l => dict_set (id l) l (found st)
    | None => found st
    end.
Proof.
  unfold iteration. destruct (probe get i); destruct (_ && _); reflexivity.
Qed.

(** The events of the turn for id [i]: the request, then only prints when
    the turn breaks, and prints followed by one delay when it does not. *)
Lemma iteration_trace (st : state) (i : Z) :
  exists prints,
    Forall (fun e => exists line, e = Print line) prints /\
    trace (fst (iteration floor get stop st i))
    = (trace st ++ Get (store_url i) 12 :: prints
       ++ if snd (iteration floor get stop st i) then [] else [Sleep 30])%list /\
    (snd (iteration floor get stop st i) = true -> prints <> []).
Proof.
  unfold iteration.
  set (loc := probe get i).
  set (f' := match loc with Some l => dict_set (id l) l (found st) | None => found st end).
  set (m' := match loc with Some _ => 0 | None => misses st + 1 end).
  destruct (i mod 100 =? 0); destruct (_ && _); cbn [fst snd trace].
  - exists [Print (progress_line i f' m'); Print (stop_line i m')].
    repeat split; [repeat constructor; eexists; reflexivity| |discriminate].
    rewrite <- !app_assoc. reflexivity.
  - exists [Print (progress_line i f' m')].
    repeat split; [repeat constructor; eexists; reflexivity| |discriminate].
    rewrite <- !app_assoc. reflexivity.
  - exists [Print (stop_line i m')].
    repeat split; [repeat constructor; eexists; reflexivity| |discriminate].
    rewrite <- !app_assoc. reflexivity.
  - exists []. repeat split; [constructor| |discriminate].
    rewrite <- !app_assoc. reflexivity.
Qed.

Lemma run_S (n : nat) :
  run floor get stop (S n)
  = if snd (run floor get stop n) then run floor get stop n
    else iteration floor get stop (fst (run floor get stop n)) (Z.of_nat (S n)).
Proof.
  unfold run. rewrite ids_upto_S, loop_app.
  destruct (snd (loop floor get stop (ids_upto n) init)); [reflexivity|].
  simpl. now destruct (iteration _ _ _ _ _) as [st' [|]].
Qed.

(** Once a run has ended in [break], further ids change nothing. *)
Lemma run_stop_final (n m : nat) :
  (n <= m)%nat -> snd (run floor get stop n) = true ->
  run floor get stop m = run floor get stop n.
Proof.
  intros Hle Hb. induction Hle as [|m Hle IH]; [reflexivity|].
  rewrite run_S, IH, Hb. reflexivity.
Qed.

End Loop.

Section Run.

Variables (floor : Z) (get : string -> outcome) (stop : Z).

Let stops (j : Z) : bool := stop_here floor get stop j.

(** Where a run over [1..n] stands: either no id up to [n] met the stop
    condition and all of them were requested, or the run ended at the
    first id [m] that met it. *)
Lemma run_spec (n : nat) :
  (snd (run floor get stop n) = false /\
   (forall j, 1 <= j <= Z.of_nat n -> stops j = false) /\
   misses (fst (run floor get stop n)) = misses_at get (Z.of_nat n) /\
   probed (trace (fst (run floor get stop n))) = map store_url (ids_upto n))
  \/
  (snd (run floor get stop n) = true /\
   exists m : nat,
     (1 <= m <= n)%nat /\ stops (Z.of_nat m) = true /\
     (forall j, 1 <= j < Z.of_nat m -> stops j = false) /\
     misses (fst (run floor get stop n)) = misses_at get (Z.of_nat m) /\
     probed (trace (fst (run floor get stop n))) = map store_url (ids_upto m)).
Proof.
  induction n as [|n IH].
  - left. repeat split; try reflexivity. intros j Hj. simpl in Hj. lia.
  - rewrite run_S. destruct IH as [(Hb & Hno & Hm & Hp)|(Hb & m & Hm)].
    + rewrite Hb.
      set (st := fst (run floor get stop n)) in *.
      pose proof (iteration_misses floor get stop st (Z.of_nat (S n))) as Hmis.
      pose proof (iteration_break floor get stop st (Z.of_nat (S n))) as Hbrk.
      destruct (iteration_trace floor get stop st (Z.of_nat (S n)))
        as (prints & Hpr & Htr & _).
      rewrite Hm, <- misses_at_S in Hmis, Hbrk.
      assert (Hprobed :
        probed (trace (fst (iteration floor get stop st (Z.of_nat (S n)))))
        = map store_url (ids_upto (S n))).
      { rewrite Htr, probed_app, Hp, ids_upto_S, map_app. f_equal.
        cbn [probed map]. f_equal.
        rewrite probed_app.
        assert (Hnil : probed prints = []).
        { clear -Hpr. induction Hpr as [|e l [line ->] _ IHl]; simpl; auto. }
        rewrite Hnil.
        destruct (snd (iteration floor get stop st (Z.of_nat (S n)))); reflexivity. }
      destruct (snd (iteration floor get stop st (Z.of_nat (S n)))) eqn:Ebrk.
      * right. split; [reflexivity|]. exists (S n).
        repeat split; try lia; auto.
        intros j Hj. apply Hno. lia.
      * left. repeat split; auto.
        intros j Hj. destruct (Z.eq_dec j (Z.of_nat (S n))) as [->|Hne].
        -- unfold stops, stop_here. now rewrite <- Hbrk.
        -- apply Hno. lia.
    + rewrite Hb. right. split; [exact Hb|].
      destruct Hm as (Hle & Hs & Hfirst & Hmm & Hp).
      exists m. repeat split; try lia; auto.
Qed.

(** A run that ended in [break] ended at the first id that meets the stop
    condition. *)
Lemma run_stopped (n : nat) :
  snd (run floor get stop n) = true ->
  exists m : nat,
    (1 <= m <= n)%nat /\ stops (Z.of_nat m) = true /\
    (forall j, 1 <= j < Z.of_nat m -> stops j = false) /\
    misses (fst (run floor get stop n)) = misses_at get (Z.of_nat m) /\
    probed (trace (fst (run floor get stop n))) = map store_url (ids_upto m).
Proof.
  intros Hb. destruct (run_spec n) as [(Hf & _)|(_ & H)]; [congruence|exact H].
Qed.

Lemma run_first_stop (n : nat) (i : Z) :
  1 <= i <= Z.of_nat n -> stops i = true ->
  (forall j, 1 <= j < i -> stops j = false) ->
  snd (run floor get stop n) = true /\
  misses (fst (run floor get stop n)) = misses_at get i /\
  probed (trace (fst (run floor get stop n))) = map store_url (range 1 (i + 1)).
Proof.
  intros Hi Hs Hfirst.
  destruct (run_spec n) as [(_ & Hno & _)|(Hb & m & Hle & Hsm & Hfm & Hmis & Hp)].
  - rewrite Hno in Hs by lia. discriminate.
  - assert (Z.of_nat m = i) as <-.
    { destruct (Z.lt_trichotomy (Z.of_nat m) i) as [Hlt|[Heq|Hgt]]; [|exact Heq|].
      - rewrite Hfirst in Hsm by lia. discriminate.
      - rewrite Hfm in Hs by lia. discriminate. }
    repeat split; auto.
Qed.

(** The delays of a run: every request is followed by a delay, the request
    of a turn that breaks apart. *)
Lemma run_delays (n : nat) :
  if snd (run floor get stop n)
  then exists tr i prints,
         trace (fst (run floor get stop n))
         = (tr ++ Get (store_url i) 12 :: prints)%list /\
         delayed false tr = true /\
         Forall (fun e => exists line, e = Print line) prints /\
         1 <= i <= Z.of_nat n
  else delayed false (trace (fst (run floor get stop n))) = true.
Proof.
  induction n as [|n IH]; [reflexivity|].
  rewrite run_S. destruct (snd (run floor get stop n)) eqn:Hb.
  - rewrite Hb. destruct IH as (tr & i & prints & Ht & Hd & Hp & Hi).
    exists tr, i, prints. repeat split; auto; lia.
  - destruct (iteration_trace floor get stop (fst (run floor get stop n))
                (Z.of_nat (S n))) as (prints & Hpr & Htr & _).
    destruct (snd (iteration floor get stop _ _)) eqn:Ebrk.
    + exists (trace (fst (run floor get stop n))), (Z.of_nat (S n)), prints.
      rewrite Htr, app_nil_r. repeat split; auto; lia.
    + rewrite Htr, (delayed_app _ _ _ IH). cbn [delayed negb andb].
      clear -Hpr. induction Hpr as [|e l [line ->] _ IHl]; simpl; auto.
Qed.

(** The mapping of a run: its keys are decimal texts of ids already
    handled, without repetition, and one more id adds at most one binding,
    of a new key, at the end. *)
Lemma run_keys (n : nat) :
  NoDup (keys (found (fst (run floor get stop n)))) /\
  (forall k, In k (keys (found (fst (run floor get stop n)))) ->
             exists j, 1 <= j <= Z.of_nat n /\ k = str j) /\
  Forall (fun kv => fst kv = id (snd kv)) (found (fst (run floor get stop n))).
Proof.
  induction n as [|n (Hnd & Hk & Hid)].
  - repeat split; [constructor|intros k []|constructor].
  - rewrite run_S. destruct (snd (run floor get stop n)).
    + repeat split; auto. intros k Hin. destruct (Hk k Hin) as (j & Hj & ->).
      exists j. split; [lia|reflexivity].
    + rewrite iteration_found.
      destruct (probe get (Z.of_nat (S n))) as [l|] eqn:El.
      * destruct (probe_some get (Z.of_nat (S n)) l ltac:(lia) El) as (Hl & _).
        assert (Hfresh : ~ In (id l) (keys (found (fst (run floor get stop n))))).
        { intros Hin. destruct (Hk _ Hin) as (j & Hj & E).
          rewrite Hl in E. apply str_inj in E. lia. }
        rewrite (dict_set_fresh _ _ _ Hfresh). unfold keys in *.
        rewrite map_app. cbn [map fst]. repeat split.
        -- now apply NoDup_snoc.
        -- intros k Hin. apply in_app_or in Hin as [Hin|[<-|[]]].
           ++ destruct (Hk k Hin) as (j & Hj & ->). exists j. split; [lia|reflexivity].
           ++ exists (Z.of_nat (S n)). split; [lia|exact Hl].
        -- apply Forall_app. split; [assumption|]. now repeat constructor.
      * repeat split; auto. intros k Hin. destruct (Hk k Hin) as (j & Hj & ->).
        exists j. split; [lia|reflexivity].
Qed.

Lemma run_grows (n : nat) :
  grows (found (fst (run floor get stop n))) (found (fst (run floor get stop (S n)))).
Proof.
  rewrite run_S. destruct (snd (run floor get stop n)); [now left|].
  rewrite iteration_found.
  destruct (probe get (Z.of_nat (S n))) as [l|] eqn:El; [|now left].
  right. exists l.
  destruct (probe_some get (Z.of_nat (S n)) l ltac:(lia) El) as (Hl & _).
  destruct (run_keys n) as (_ & Hk & _).
  assert (Hfresh : ~ In (id l) (keys (found (fst (run floor get stop n))))).
  { intros Hin. destruct (Hk _ Hin) as (j & Hj & E).
    rewrite Hl in E. apply str_inj in E. lia. }
  split; [exact Hfresh|]. now apply dict_set_fresh.
Qed.

End Run.

(** ** The output order *)

Section Sorting.

Context {A : Type}.

Let key_le (p q : Z * A) : Prop := fst p <= fst q.

Lemma insert_by_key_perm (x : Z * A) (l : list (Z * A)) :
  Permutation (insert_by_key x l) (x :: l).
Proof.
  induction l as [|y l IH]; simpl; [apply Permutation_refl|].
  destruct (fst x <=? fst y); [apply Permutation_refl|].
  eapply perm_trans; [apply perm_skip, IH|apply perm_swap].
Qed.

Lemma sort_by_key_perm (l : list (Z * A)) : Permutation (sort_by_key l) l.
Proof.
  induction l as [|x l IH]; simpl; [constructor|].
  eapply perm_trans; [apply insert_by_key_perm|now apply perm_skip].
Qed.

Lemma insert_by_key_sorted (x : Z * A) (l : list (Z * A)) :
  StronglySorted key_le l -> StronglySorted key_le (insert_by_key x l).
Proof.
  induction 1 as [|y l Hl IH Hy]; simpl; [repeat constructor|].
  destruct (Z.leb_spec (fst x) (fst y)) as [Hle|Hgt].
  - constructor; [now constructor|]. constructor; [exact Hle|].
    revert Hy. apply Forall_impl. intros q Hq. unfold key_le in *. lia.
  - constructor; [exact IH|].
    apply (Permutation_Forall (Permutation_sym (insert_by_key_perm x l))).
    constructor; [unfold key_le; lia|exact Hy].
Qed.

Lemma sort_by_key_sorted (l : list (Z * A)) : StronglySorted key_le (sort_by_key l).
Proof.
  induction l as [|x l IH]; simpl; [constructor|]. now apply insert_by_key_sorted.
Qed.

End Sorting.

Lemma StronglySorted_map {A B : Type} (R : A -> A -> Prop) (S : B -> B -> Prop)
    (P : A -> Prop) (f : A -> B) (l : list A) :
  (forall a b, P a -> P b -> R a b -> S (f a) (f b)) ->
  Forall P l -> StronglySorted R l -> StronglySorted S (map f l).
Proof.
  intros HRS HP Hs. induction Hs as [|a l Hl IH Ha]; simpl; [constructor|].
  inversion HP as [|? ? Pa Pl]; subst. constructor; [now apply IH|].
  apply Forall_map. rewrite Forall_forall in *. intros b Hb.
  apply HRS; auto.
Qed.

Lemma with_keys_some (d : dict) :
  keyed_by_id d ->
  exists r, with_keys d = Some r /\ map snd r = map snd d /\
            Forall (fun p => py_int (id (snd p)) = Some (fst p)) r.
Proof.
  induction 1 as [|[k v] d [Hk Hv] Hd (r & Hr & Hm & Hf)]; simpl.
  - exists []. repeat split; constructor.
  - simpl in Hk, Hv. destruct (py_int k) as [n|] eqn:En; [|congruence].
    rewrite Hr. simpl. exists ((n, v) :: r). repeat split.
    + simpl. now rewrite Hm.
    + constructor; [simpl; now rewrite <- Hk|exact Hf].
Qed.

(** The emitted sequence of a mapping keyed by the ids of its records. *)
Lemma locations_sorted (d : dict) :
  keyed_by_id d ->
  exists out,
    locations d = Some out /\
    Permutation out (map snd d) /\
    StronglySorted (fun a b => numeric_le (id a) (id b)) out.
Proof.
  intros Hd. destruct (with_keys_some d Hd) as (r & Hr & Hm & Hf).
  unfold locations. rewrite Hr. simpl. eexists. split; [reflexivity|]. split.
  - rewrite <- Hm. apply Permutation_map, sort_by_key_perm.
  - apply StronglySorted_map
      with (R := fun p q => fst p <= fst q)
           (P := fun p => py_int (id (snd p)) = Some (fst p)).
    + intros a b Ha Hb Hab. exists (fst a), (fst b). auto.
    + apply (Permutation_Forall (Permutation_sym (sort_by_key_perm r))). exact Hf.
    + apply sort_by_key_sorted.
Qed.

(** ** [int] on decimal texts *)

Lemma digit_chars (c : ascii) :
  is_digit c = true ->
  is_num_space c = false /\ Ascii.eqb c "_" = false /\
  Ascii.eqb c "-" = false /\ Ascii.eqb c "+" = false.
Proof.
  destruct c as [[|] [|] [|] [|] [|] [|] [|] [|]]; vm_compute;
    intros H; try discriminate H; repeat split.
Qed.

Lemma drop_underscores_digits (prev : ascii) (s : string) :
  all_chars is_digit s = true -> prev <> "_"%char ->
  PyFloat.drop_underscores prev s = Some s.
Proof.
  revert prev. induction s as [|c s IH]; intros prev Hs Hp; simpl.
  - apply Ascii.eqb_neq in Hp. now rewrite Hp.
  - simpl in Hs. apply andb_prop in Hs as [Hc Hs].
    destruct (digit_chars c Hc) as (_ & Hu & _). rewrite Hu, Hc.
    rewrite andb_false_r. rewrite IH; [reflexivity|exact Hs|].
    intros ->. discriminate.
Qed.

Lemma py_int_digits (s : string) :
  all_chars is_digit s = true -> begins_with_digit s = true ->
  py_int s = Some (Z.of_N (PyFloat.digits_value 0 s)).
Proof.
  intros Hs Hb. unfold py_int.
  assert (Hstrip : Str.strip_chars is_num_space s = s).
  { unfold Str.strip_chars. destruct s as [|c s']; [discriminate|].
    cbn [begins_with_digit] in Hb. cbn [Str.lstrip].
    destruct (digit_chars c Hb) as (Hsp & _). rewrite Hsp.
    apply rstrip_none. revert Hs. apply all_chars_weaken.
    intros x Hx. destruct (digit_chars x Hx) as (-> & _). reflexivity. }
  rewrite Hstrip, drop_underscores_digits by (auto; discriminate).
  cbn [obind]. destruct s as [|c s']; [discriminate|].
  cbn [begins_with_digit] in Hb.
  destruct (digit_chars c Hb) as (_ & _ & Hm & Hp).
  unfold PyFloat.sign. rewrite Hm, Hp.
  now rewrite (span_all _ _ Hs).
Qed.

(** The mapping a scan returns is keyed by the ids of its records, which
    [int] reads. *)
Lemma scan_keyed_by_id (floor : Z) (get : string -> outcome) (max_id stop : Z) :
  keyed_by_id (found (fst (scan floor get max_id stop))).
Proof.
  unfold scan. rewrite range_upto. fold (run floor get stop (Z.to_nat max_id)).
  destruct (run_keys floor get stop (Z.to_nat max_id)) as (_ & Hk & Hid).
  unfold keyed_by_id. rewrite Forall_forall in *. intros kv Hin.
  split; [now apply Hid|].
  destruct (Hk (fst kv)) as (j & Hj & ->); [now apply in_map|].
  destruct (str_digits j) as [Hd Hb]; [lia|].
  now rewrite py_int_digits.
Qed.

(** * The claims *)

(** ** Extractor *)

(** C1, as stated, fails: the sample page holds both coordinate markers with
    texts that [float] accepts and the address heading, yet no record is
    produced for an address whose path does not begin with a digit. *)
Lemma required_fields_without_url_id_counterexample :
  has_required_fields sample_page = true /\
  parse_store_page (BASE ++ "/about") sample_page = None.
Proof. split; vm_compute; reflexivity. Qed.

(** C1, amended: the extractor produces a record if and only if the
    latitude marker and the longitude marker are both present and hold
    texts that [float] accepts, the street-address heading is present, and
    the path of the url begins with a digit; otherwise it returns absent. *)
Theorem record_iff_required_fields_and_url_id :
  forall url html,
    (exists r, parse_store_page url html = Some r) <->
    (exists la lo h x y,
       lat_marker html = Some la /\ lng_marker html = Some lo /\
       address_heading html = Some h /\
       PyFloat.of_string la = Some x /\ PyFloat.of_string lo = Some y /\
       begins_with_digit (url_path url) = true).
Proof.
  intros url html. split.
  - intros [r Hr]. pose proof (parse_store_page_some _ _ _ Hr)
      as (la & lo & h & Hla & Hlo & Hh & Hx & Hy & Hid & _).
    exists la, lo, h, (latitude r), (longitude r).
    repeat split; auto. now apply match_digits_leading in Hid.
  - intros (la & lo & h & x & y & Hla & Hlo & Hh & Hx & Hy & Hd).
    pose proof (parse_store_page_is_some url html) as H.
    unfold has_required_fields in H. rewrite Hla, Hlo, Hh, Hx, Hy, Hd in H.
    destruct (parse_store_page url html) as [r|]; [now exists r|discriminate].
Qed.

(** C5: the id of every record is the leading run of digits of the path
    of the url (a non-empty text of digits, followed in the path by
    something that does not begin with a digit), whatever the page body;
    when that path does not begin with a digit the extractor returns
    absent for every body. *)
Theorem record_id_from_url_path :
  forall url html,
    (forall r, parse_store_page url html = Some r ->
               id r = leading_digits (url_path url) /\ id r <> EmptyString /\
               exists rest,
                 url_path url = id r ++ rest /\
                 all_chars is_digit (id r) = true /\
                 begins_with_digit rest = false) /\
    (begins_with_digit (url_path url) = false ->
     parse_store_page url html = None).
Proof.
  intros url html. split.
  - intros r Hr. pose proof (parse_store_page_some _ _ _ Hr)
      as (la & lo & h & _ & _ & _ & _ & _ & Hid & _).
    destruct (match_digits_leading _ _ Hid) as [Hl Hb]. split; [exact Hl|].
    split.
    + unfold Re.match_digits in Hid.
      destruct (Str.span is_digit (url_path url)) as [[|c d] rest];
        [discriminate|]. injection Hid as <-. discriminate.
    + rewrite Hl. apply leading_digits_spec.
  - intros Hb. pose proof (parse_store_page_is_some url html) as H.
    rewrite Hb, andb_false_r in H.
    now destruct (parse_store_page url html).
Qed.

Lemma record_id_from_url_path_witness :
  (exists r, parse_store_page (store_url 12) sample_page = Some r /\
             id r = leading_digits (url_path (store_url 12)) /\
             id r <> EmptyString /\
             exists rest,
               url_path (store_url 12) = id r ++ rest /\
               all_chars is_digit (id r) = true /\
               begins_with_digit rest = false) /\
  parse_store_page (BASE ++ "/about") sample_page = None.
Proof.
  split.
  - destruct (parse_store_page (store_url 12) sample_page) as [r|] eqn:E;
      [|vm_compute in E; discriminate E].
    exists r. split; [reflexivity|].
    exact (proj1 (record_id_from_url_path (store_url 12) sample_page) r E).
  - apply (proj2 (record_id_from_url_path (BASE ++ "/about") sample_page)).
    vm_compute. reflexivity.
Defined.

(** C6: a heading that normalizes to the text of the spec's example gives
    the city and state, the street and the zip code of the example; a
    normalized heading without the separator becomes the city and state
    whole, with an empty street and an empty zip code. *)
Theorem heading_examples :
  forall url html r h,
    parse_store_page url html = Some r ->
    address_heading html = Some h ->
    let h3 := normalize_whitespace (Re.sub_tags " " O h) in
    (h3 = "Los Angeles, CA - 123 Main St, 90001" ->
     city_state r = "Los Angeles, CA" /\ address_line r = "123 Main St" /\
     zip_code r = "90001") /\
    (Str.contains " - " h3 = false ->
     city_state r = h3 /\ address_line r = EmptyString /\
     zip_code r = EmptyString).
Proof.
  intros url html r h Hr Hh h3.
  pose proof (parse_store_page_some _ _ _ Hr)
    as (la & lo & h' & _ & _ & Hh' & _ & _ & _ & Hf & _).
  rewrite Hh in Hh'. injection Hh' as <-. fold h3 in Hf. split.
  - intros E. rewrite E, heading_fields_example in Hf.
    injection Hf as <- <- <-. repeat split.
  - intros Hc. rewrite heading_without_separator in Hf.
    + injection Hf as <- <- <-. repeat split.
    + apply normalize_whitespace_idem.
    + exact Hc.
Qed.

Lemma heading_examples_witness :
  (exists r, parse_store_page (store_url 12) sample_page = Some r /\
             city_state r = "Los Angeles, CA" /\
             address_line r = "123 Main St" /\ zip_code r = "90001") /\
  (exists r, parse_store_page (store_url 7) plain_page = Some r /\
             city_state r = "123 Main St" /\
             address_line r = EmptyString /\ zip_code r = EmptyString).
Proof.
  split.
  - destruct (parse_store_page (store_url 12) sample_page) as [r|] eqn:E;
      [|vm_compute in E; discriminate E].
    destruct (address_heading sample_page) as [h|] eqn:Eh;
      [|vm_compute in Eh; discriminate Eh].
    exists r. split; [reflexivity|].
    apply (proj1 (heading_examples (store_url 12) sample_page r h E Eh)).
    vm_compute in Eh. injection Eh as <-. vm_compute. reflexivity.
  - destruct (parse_store_page (store_url 7) plain_page) as [r|] eqn:E;
      [|vm_compute in E; discriminate E].
    destruct (address_heading plain_page) as [h|] eqn:Eh;
      [|vm_compute in Eh; discriminate Eh].
    exists r. split; [reflexivity|].
    pose proof (proj2 (heading_examples (store_url 7) plain_page r h E Eh)) as H.
    vm_compute in Eh. injection Eh as <-.
    apply H. vm_compute. reflexivity.
Defined.

(** ** Scanner *)

Lemma scan_run (floor : Z) (get : string -> outcome) (max_id stop : Z) :
  scan floor get max_id stop = run floor get stop (Z.to_nat max_id).
Proof. unfold scan, run. now rewrite range_upto. Qed.

(** C2: when [i] is the first id that is above the floor while the count
    of consecutive misses has reached the threshold, the scan ends in
    [break] at [i]: its miss counter holds that count, the ids requested
    are exactly [1..i], and no id after [i] is requested, however large
    [max_id] is. *)
Theorem scan_stops_at_first_stop_id :
  forall get max_id stop i,
    1 <= i <= max_id ->
    stop_here FLOOR get stop i = true ->
    (forall j, 1 <= j < i -> stop_here FLOOR get stop j = false) ->
    snd (scan FLOOR get max_id stop) = true /\
    misses (fst (scan FLOOR get max_id stop)) = misses_at get i /\
    probed (trace (fst (scan FLOOR get max_id stop)))
    = map store_url (range 1 (i + 1)) /\
    (forall j, i < j ->
       ~ In (store_url j) (probed (trace (fst (scan FLOOR get max_id stop))))).
Proof.
  intros get max_id stop i Hi Hs Hfirst. rewrite scan_run.
  destruct (run_first_stop FLOOR get stop (Z.to_nat max_id) i) as (Hb & Hm & Hp);
    [lia|exact Hs|exact Hfirst|].
  repeat split; [exact Hb|exact Hm|exact Hp|].
  intros j Hj Hin. rewrite Hp in Hin. apply in_map_iff in Hin as (k & Hk & Hin).
  apply store_url_inj in Hk. subst k.
  rewrite range_upto in Hin. apply in_ids_upto in Hin. lia.
Qed.

Lemma no_stop_up_to_floor (floor : Z) (get : string -> outcome) (stop j : Z) :
  j <= floor -> stop_here floor get stop j = false.
Proof.
  intros Hj. unfold stop_here.
  replace (floor <? j) with false by (symmetry; apply Z.ltb_ge; lia).
  apply andb_false_r.
Qed.

Lemma scan_stops_at_first_stop_id_witness :
  snd (scan FLOOR never_answers 1200 3) = true /\
  misses (fst (scan FLOOR never_answers 1200 3)) = misses_at never_answers 301 /\
  probed (trace (fst (scan FLOOR never_answers 1200 3)))
  = map store_url (range 1 (301 + 1)) /\
  (forall j, 301 < j ->
     ~ In (store_url j) (probed (trace (fst (scan FLOOR never_answers 1200 3))))).
Proof.
  apply (scan_stops_at_first_stop_id never_answers 1200 3 301).
  - lia.
  - vm_compute. reflexivity.
  - intros j Hj. apply no_stop_up_to_floor. unfold FLOOR. lia.
Defined.

(** C3, as stated, fails: misses at or below the floor do count.  With the
    floor of the source and a threshold of 3, a service that never answers
    stops the scan at id 301, after a single miss above the floor; with
    the floor 5 of the spec's example it stops the scan at id 6, not 8. *)
Lemma misses_below_floor_count_counterexample :
  (snd (scan FLOOR never_answers 1200 3) = true /\
   probed (trace (fst (scan FLOOR never_answers 1200 3)))
   = map store_url (range 1 (301 + 1)) /\ FLOOR = 300) /\
  (snd (scan 5 never_answers 1200 3) = true /\
   probed (trace (fst (scan 5 never_answers 1200 3)))
   = map store_url (range 1 (6 + 1))).
Proof. repeat split; vm_compute; reflexivity. Qed.

(** C3, amended: the early stop never fires at an id at or below the
    floor; a scan that ends in [break] ends at the first id above the
    floor at which the count of consecutive misses, taken from id 1 on and
    so including the misses at or below the floor, has reached the
    threshold.  (With a threshold of 3 and a floor of 5, a hit at id 5 and
    misses at ids 6, 7, 8 end the scan at id 8.) *)
Theorem early_stop_only_above_floor :
  forall floor get max_id stop,
    snd (scan floor get max_id stop) = true ->
    exists i,
      1 <= i <= max_id /\ floor < i /\ stop <= misses_at get i /\
      (forall j, 1 <= j < i -> stop_here floor get stop j = false) /\
      probed (trace (fst (scan floor get max_id stop)))
      = map store_url (range 1 (i + 1)).
Proof.
  intros floor get max_id stop. rewrite scan_run. intros Hb.
  destruct (run_stopped floor get stop _ Hb) as (m & Hm & Hs & Hfirst & _ & Hp).
  exists (Z.of_nat m). unfold stop_here in Hs.
  apply andb_prop in Hs as [Hs1 Hs2].
  apply Z.leb_le in Hs1. apply Z.ltb_lt in Hs2.
  repeat split; try lia; auto.
Qed.

Lemma early_stop_only_above_floor_witness :
  exists i,
    1 <= i <= 1200 /\ 5 < i /\ 3 <= misses_at serves_only_5 i /\
    (forall j, 1 <= j < i -> stop_here 5 serves_only_5 3 j = false) /\
    probed (trace (fst (scan 5 serves_only_5 1200 3)))
    = map store_url (range 1 (i + 1)).
Proof.
  apply (early_stop_only_above_floor 5 serves_only_5 1200 3).
  vm_compute. reflexivity.
Defined.

(** The spec's example of the early stop, run on the loop with floor 5. *)
Example early_stop_example :
  probed (trace (fst (scan 5 serves_only_5 1200 3)))
  = map store_url [1; 2; 3; 4; 5; 6; 7; 8].
Proof. vm_compute. reflexivity. Qed.

(** C4, as stated, fails: a response with status 201 is a successful (2xx)
    response, and its non-empty body is not passed to the extractor. *)
Lemma status_201_counterexample :
  exists r,
    answers_with 201 sample_page (store_url 1) = Returned r /\
    200 <= status_code r < 300 /\ text r <> EmptyString /\
    parse_store_page (store_url 1) (text r) <> None /\
    probe (answers_with 201 sample_page) 1 = None.
Proof.
  eexists. split; [reflexivity|]. cbn [status_code text].
  repeat split; try lia; try (vm_compute; discriminate).
Qed.

(** C4, amended: in a turn of the loop, a request that raises or returns a
    status other than 200 gives an empty body and is counted as a miss,
    the mapping is left as it was and the turn breaks only on the stop
    condition; the non-empty body of a response with status 200 is passed
    to the extractor with the address built for the id. *)
Theorem fetch_failure_is_a_miss :
  forall floor get stop st i,
    ((get (store_url i) = Raised \/
      exists r, get (store_url i) = Returned r /\ status_code r <> 200) ->
     probe get i = None /\
     found (fst (iteration floor get stop st i)) = found st /\
     misses (fst (iteration floor get stop st i)) = misses st + 1 /\
     snd (iteration floor get stop st i)
     = (stop <=? misses st + 1) && (floor <? i)) /\
    (forall r, get (store_url i) = Returned r -> status_code r = 200 ->
               text r <> EmptyString ->
               probe get i = parse_store_page (store_url i) (text r)).
Proof.
  intros floor get stop st i. split.
  - intros H.
    assert (Hp : probe get i = None).
    { unfold probe, fetch_html. destruct H as [->|(r & -> & Hs)]; [reflexivity|].
      apply Z.eqb_neq in Hs. now rewrite Hs. }
    rewrite iteration_found, iteration_misses, iteration_break.
    unfold count_miss, hit. rewrite Hp. repeat split.
  - intros r Hg Hs Ht. unfold probe, fetch_html. rewrite Hg, Hs, Z.eqb_refl.
    destruct (String.eqb_spec (text r) EmptyString); [contradiction|reflexivity].
Qed.

Lemma fetch_failure_is_a_miss_witness :
  (probe never_answers 1 = None /\
   found (fst (iteration FLOOR never_answers 180 init 1)) = found init /\
   misses (fst (iteration FLOOR never_answers 180 init 1)) = misses init + 1 /\
   snd (iteration FLOOR never_answers 180 init 1)
   = (180 <=? misses init + 1) && (FLOOR <? 1)) /\
  probe (answers_with 200 sample_page) 1
  = parse_store_page (store_url 1) sample_page.
Proof.
  split.
  - apply (proj1 (fetch_failure_is_a_miss FLOOR never_answers 180 init 1)).
    left. reflexivity.
  - apply (proj2 (fetch_failure_is_a_miss FLOOR (answers_with 200 sample_page)
                    180 init 1)
             (mkResponse 200 sample_page (store_url 1))).
    + reflexivity.
    + reflexivity.
    + vm_compute. discriminate.
Defined.

Lemma scrape_run (get : string -> outcome) (max_id stop : Z) :
  scrape_by_ids get max_id stop = found (fst (run FLOOR get stop (Z.to_nat max_id))).
Proof. unfold scrape_by_ids. now rewrite scan_run. Qed.

(** C8: the result mapping starts empty; handling one more id leaves it as
    it is or adds one binding of a key that was not there, at the end, so
    that no value is ever replaced; its keys never repeat.  (The mapping
    after the first [k] ids of a run is the mapping of the run with
    [max_id = k], by [loop_app] and [run_stop_final].) *)
Theorem result_mapping_only_grows :
  forall get stop k,
    found init = [] /\
    scrape_by_ids get 0 stop = [] /\
    grows (scrape_by_ids get k stop) (scrape_by_ids get (k + 1) stop) /\
    NoDup (keys (scrape_by_ids get k stop)).
Proof.
  intros get stop k. rewrite !scrape_run. repeat split.
  - destruct (Z.neg_nonneg_cases k) as [Hneg|Hpos].
    + replace (Z.to_nat (k + 1)) with (Z.to_nat k) by lia. now left.
    + replace (Z.to_nat (k + 1)) with (S (Z.to_nat k)) by lia. apply run_grows.
  - apply run_keys.
Qed.

(** C9, as stated, fails: the request on which the scan ends in [break] is
    not followed by a delay.  Against a service that never answers, with a
    threshold of 3, the trace ends with the request for id 301 and the
    stop message. *)
Lemma no_delay_after_stopping_request_counterexample :
  snd (scan FLOOR never_answers 1200 3) = true /\
  delayed false (trace (fst (scan FLOOR never_answers 1200 3))) = false /\
  exists tr,
    trace (fst (scan FLOOR never_answers 1200 3))
    = (tr ++ [Get (store_url 301) 12; Print (stop_line 301 301)])%list.
Proof.
  repeat split; try (vm_compute; reflexivity).
  exists (removelast (removelast (trace (fst (scan FLOOR never_answers 1200 3))))).
  vm_compute. reflexivity.
Qed.

(** C9, amended: in every scan each request is followed by the fixed
    delay, whatever its outcome, except the request of the turn that ends
    the scan in [break], which is followed by prints only. *)
Theorem delay_after_every_request_but_the_stopping_one :
  forall get max_id stop,
    if snd (scan FLOOR get max_id stop)
    then exists tr i prints,
           trace (fst (scan FLOOR get max_id stop))
           = (tr ++ Get (store_url i) 12 :: prints)%list /\
           delayed false tr = true /\
           Forall (fun e => exists line, e = Print line) prints
    else delayed false (trace (fst (scan FLOOR get max_id stop))) = true.
Proof.
  intros get max_id stop. rewrite scan_run.
  pose proof (run_delays FLOOR get stop (Z.to_nat max_id)) as H.
  destruct (snd (run FLOOR get stop (Z.to_nat max_id))); [|exact H].
  destruct H as (tr & i & prints & Ht & Hd & Hp & _).
  exists tr, i, prints. auto.
Qed.

(** The key of the turn for the next id is not in the mapping yet. *)
Lemma run_key_fresh (floor : Z) (get : string -> outcome) (stop : Z) (n : nat) :
  ~ In (str (Z.of_nat (S n))) (keys (found (fst (run floor get stop n)))).
Proof.
  destruct (run_keys floor get stop n) as (_ & Hk & _).
  intros Hin. destruct (Hk _ Hin) as (j & Hj & E). apply str_inj in E. lia.
Qed.

(** What the turn for the next id does to the mapping of a run that has
    not ended. *)
Lemma run_turn (floor : Z) (get : string -> outcome) (stop : Z) (n : nat) :
  snd (run floor get stop n) = false ->
  found (fst (run floor get stop (S n)))
  = match probe get (Z.of_nat (S n)) with
    | Some loc =>
        (found (fst (run floor get stop n)) ++ [(str (Z.of_nat (S n)), loc)])%list
    | None => found (fst (run floor get stop n))
    end.
Proof.
  intros Hb. rewrite run_S, Hb, iteration_found.
  destruct (probe get (Z.of_nat (S n))) as [l|] eqn:El; [|reflexivity].
  destruct (probe_some get (Z.of_nat (S n)) l ltac:(lia) El) as (Hl & _).
  rewrite Hl. apply dict_set_fresh, run_key_fresh.
Qed.

(** C10: in the turn for id [i] the extractor is handed the address built
    from [i], with the body fetched from that address; the final address
    of the response plays no part; a record of the turn has the decimal
    text of [i] as id and as path and the built address as url.  That
    text is not a key of the mapping when the turn begins, so the turn
    adds its record under a new key, at the end of the mapping: the
    extracted id never differs from the loop counter and insertions never
    collide. *)
Theorem record_id_is_loop_counter :
  forall get stop i,
    1 <= i ->
    probe get i
    = parse_store_page (store_url i) (fetch_html get (store_url i)) /\
    probe (fun u => forget_final_url (get u)) i = probe get i /\
    (forall loc, probe get i = Some loc ->
                 id loc = str i /\ slug loc = str i /\ url loc = store_url i) /\
    ~ In (str i) (keys (scrape_by_ids get (i - 1) stop)) /\
    (snd (scan FLOOR get (i - 1) stop) = false ->
     scrape_by_ids get i stop
     = match probe get i with
       | Some loc => (scrape_by_ids get (i - 1) stop ++ [(str i, loc)])%list
       | None => scrape_by_ids get (i - 1) stop
       end).
Proof.
  intros get stop i Hi.
  assert (Hn : Z.to_nat i = S (Z.to_nat (i - 1))) by lia.
  assert (Hz : Z.of_nat (S (Z.to_nat (i - 1))) = i) by lia.
  rewrite !scrape_run, scan_run, Hn. split; [|split; [|split; [|split]]].
  - unfold probe.
    destruct (String.eqb_spec (fetch_html get (store_url i)) EmptyString)
      as [->|_]; reflexivity.
  - unfold probe, fetch_html, forget_final_url.
    now destruct (get (store_url i)).
  - intros loc Hloc. now apply (probe_some get i).
  - rewrite <- Hz at 1. apply run_key_fresh.
  - intros Hb. rewrite (run_turn FLOOR get stop _ Hb), Hz. reflexivity.
Qed.

Lemma record_id_is_loop_counter_witness :
  exists loc,
    probe (answers_with 200 sample_page) 12 = Some loc /\
    Some loc = parse_store_page (store_url 12) sample_page /\
    id loc = str 12 /\ slug loc = str 12 /\ url loc = store_url 12 /\
    ~ In (str 12) (keys (scrape_by_ids (answers_with 200 sample_page) 11 180)) /\
    scrape_by_ids (answers_with 200 sample_page) 12 180
    = (scrape_by_ids (answers_with 200 sample_page) 11 180 ++ [(str 12, loc)])%list.
Proof.
  destruct (record_id_is_loop_counter (answers_with 200 sample_page) 180 12)
    as (H1 & _ & H3 & H4 & H5); [lia|].
  change (12 - 1) with 11 in H4, H5.
  change (fetch_html (answers_with 200 sample_page) (store_url 12))
    with sample_page in H1.
  destruct (probe (answers_with 200 sample_page) 12) as [loc|] eqn:E;
    [|vm_compute in E; discriminate E].
  exists loc. destruct (H3 loc eq_refl) as (Hid & Hslug & Hurl).
  assert (H6 : snd (scan FLOOR (answers_with 200 sample_page) 11 180) = false)
    by (vm_compute; reflexivity).
  specialize (H5 H6). repeat split; assumption.
Defined.

(** ** Output *)

(** C7: for every mapping keyed by the ids of its records, the emitted
    sequence holds the records of the mapping in ascending order of the
    numeric value of their ids; ids 2, 10, 1 in insertion order are
    emitted in the order 1, 2, 10. *)
Theorem emitted_in_numeric_id_order :
  (forall d : dict,
     keyed_by_id d ->
     exists out,
       locations d = Some out /\
       Permutation out (map snd d) /\
       StronglySorted (fun a b => numeric_le (id a) (id b)) out) /\
  option_map (map id) (locations sample_found) = Some ["1"; "2"; "10"].
Proof.
  split; [exact locations_sorted|]. vm_compute. reflexivity.
Qed.

Lemma emitted_in_numeric_id_order_witness :
  exists out,
    locations sample_found = Some out /\
    Permutation out (map snd sample_found) /\
    StronglySorted (fun a b => numeric_le (id a) (id b)) out.
Proof.
  apply (proj1 emitted_in_numeric_id_order sample_found).
  repeat constructor; vm_compute; discriminate.
Defined.

(** The sequence emitted after a scan is in ascending numeric order of
    the ids. *)
Corollary scan_output_sorted (get : string -> outcome) (max_id stop : Z) :
  exists out,
    locations (scrape_by_ids get max_id stop) = Some out /\
    Permutation out (map snd (scrape_by_ids get max_id stop)) /\
    StronglySorted (fun a b => numeric_le (id a) (id b)) out.
Proof. apply locations_sorted, scan_keyed_by_id. Qed.

(** * Further properties of the code *)

(** ** [normalize_whitespace] *)

Lemma lstrip_fix (f : ascii -> bool) (s : string) :
  begins_with f s = false -> Str.lstrip f s = s.
Proof. destruct s as [|c s]; simpl; [reflexivity|]. now intros ->. Qed.

Lemma rstrip_fix (f : ascii -> bool) (s : string) :
  ends_with f s = false -> Str.rstrip f s = s.
Proof.
  induction s as [|c s IH]; [reflexivity|]. cbn [ends_with Str.rstrip].
  destruct s as [|d s].
  - cbn [Str.rstrip]. now intros ->.
  - intros H. now rewrite (IH H).
Qed.

Lemma rstrip_ends (f : ascii -> bool) (s : string) :
  ends_with f (Str.rstrip f s) = false.
Proof.
  induction s as [|c s IH]; [reflexivity|]. cbn [Str.rstrip].
  destruct (Str.rstrip f s) as [|d r].
  - destruct (f c) eqn:E; [reflexivity|exact E].
  - exact IH.
Qed.

Lemma rstrip_begins (f : ascii -> bool) (s : string) :
  begins_with f s = false -> begins_with f (Str.rstrip f s) = false.
Proof.
  destruct s as [|c s]; [reflexivity|]. cbn [begins_with Str.rstrip].
  intros Hc. destruct (Str.rstrip f s); rewrite ?Hc; exact Hc.
Qed.

Lemma lstrip_begins (f : ascii -> bool) (s : string) :
  begins_with f (Str.lstrip f s) = false.
Proof.
  pose proof (lstrip_head f s) as H. now destruct (Str.lstrip f s).
Qed.

Lemma normalize_whitespace_is_tidy (s : string) :
  tidy (normalize_whitespace s) = true.
Proof.
  unfold tidy, normalize_whitespace, Str.strip, Str.strip_chars.
  rewrite rstrip_single, rstrip_begins, rstrip_ends; [reflexivity| |].
  - apply lstrip_begins.
  - apply (lstrip_single false), sub_spaces_single.
Qed.

Lemma tidy_fix (s : string) : tidy s = true -> normalize_whitespace s = s.
Proof.
  unfold tidy. intros H. apply andb_prop in H as [H He].
  apply andb_prop in H as [Hs Hb].
  apply negb_true_iff in He, Hb.
  unfold normalize_whitespace, Str.strip, Str.strip_chars.
  now rewrite (sub_spaces_fix _ _ Hs), (lstrip_fix _ _ Hb), (rstrip_fix _ _ He).
Qed.

(** X1: the text [normalize_whitespace] returns never begins or ends with
    whitespace, and its only whitespace is single spaces. *)
Theorem normalize_whitespace_output_tidy :
  forall s,
    single_spaced false (normalize_whitespace s) = true /\
    begins_with is_space (normalize_whitespace s) = false /\
    ends_with is_space (normalize_whitespace s) = false.
Proof.
  intros s. pose proof (normalize_whitespace_is_tidy s) as H. unfold tidy in H.
  apply andb_prop in H as [H He]. apply andb_prop in H as [Hs Hb].
  apply negb_true_iff in He, Hb. auto.
Qed.

(** X2: [normalize_whitespace] is idempotent, and the texts it leaves
    unchanged are exactly the tidy ones. *)
Theorem normalize_whitespace_fixed_points :
  forall s,
    normalize_whitespace (normalize_whitespace s) = normalize_whitespace s /\
    (normalize_whitespace s = s <-> tidy s = true).
Proof.
  intros s. split; [apply tidy_fix, normalize_whitespace_is_tidy|]. split.
  - intros E. rewrite <- E. apply normalize_whitespace_is_tidy.
  - apply tidy_fix.
Qed.

(** ** The optional and the derived fields of a record *)

Lemma parse_store_page_optional (u html : string) (r : Location) :
  parse_store_page u html = Some r ->
  name r = title_name (Re.search_element "<title>" "</title>" html) /\
  image_url r
  = (let g := match Re.search_image html with
              | Some g => g
              | None => EmptyString
              end in
     if Str.startswith "/" g then BASE ++ g else g).
Proof.
  unfold parse_store_page.
  destruct (Re.search_attr "data-latitude" html) as [la|]; [|discriminate].
  destruct (Re.search_attr "data-longitude" html) as [lo|]; [|discriminate].
  destruct (Re.search_element _ "</h3>" html) as [h|]; [|discriminate].
  destruct (Re.match_digits (url_path u)) as [d|]; [|discriminate].
  destruct (heading_fields _) as [[cs al] zc].
  destruct (PyFloat.of_string la) as [x|]; [|discriminate].
  destruct (PyFloat.of_string lo) as [y|]; [|discriminate].
  intros [= <-]. split; reflexivity.
Qed.

Lemma digits_exact_some (n : nat) (s d r : string) :
  Re.digits_exact n s = Some (d, r) ->
  s = d ++ r /\ String.length d = n /\ all_chars is_digit d = true.
Proof.
  revert s d r. induction n as [|n IH]; intros s d r; simpl.
  - intros [= <- <-]. auto.
  - destruct s as [|c s]; [discriminate|].
    destruct (is_digit c) eqn:Ec; [|discriminate].
    destruct (Re.digits_exact n s) as [[d' r']|] eqn:E; [|discriminate].
    cbn [obind]. intros [= <- <-].
    destruct (IH _ _ _ E) as (Hs & Hl & Hd). subst. simpl. now rewrite Ec, Hd.
Qed.

Lemma digits_exact_app (d r : string) :
  all_chars is_digit d = true ->
  Re.digits_exact (String.length d) (d ++ r) = Some (d, r).
Proof.
  induction d as [|c d IH]; simpl; [reflexivity|].
  intros H. apply andb_prop in H as [Hc Hd]. now rewrite Hc, (IH Hd).
Qed.

Lemma zip_tail_digits (s z : string) :
  Re.zip_tail s = Some z ->
  String.length z = 5%nat /\ all_chars is_digit z = true.
Proof.
  unfold Re.zip_tail. destruct (Str.span is_space s) as [ws r].
  destruct (Re.digits_exact 5 r) as [[z' r2]|] eqn:E; [|discriminate].
  cbn [obind]. apply digits_exact_some in E as (_ & Hl & Hd).
  assert (Hz : forall o : option string,
             (o = Some z' \/ o = None) -> o = Some z ->
             String.length z = 5%nat /\ all_chars is_digit z = true).
  { intros o [-> | ->]; [|discriminate]. intros [= <-]. auto. }
  destruct r2 as [|c r3].
  - apply Hz. destruct (Re.at_end EmptyString); auto.
  - destruct (Ascii.eqb c "-").
    + destruct (Re.digits_exact 4 r3) as [[d4 r4]|].
      * destruct (Re.at_end r4); [apply Hz; auto|].
        apply Hz. destruct (Re.at_end (String c r3)); auto.
      * apply Hz. destruct (Re.at_end (String c r3)); auto.
    + apply Hz. destruct (Re.at_end (String c r3)); auto.
Qed.

Lemma search_zip_some (s a z : string) :
  Re.search_zip s = Some (a, z) ->
  exists rest, s = a ++ String "," rest /\ Re.zip_tail rest = Some z.
Proof.
  revert a. induction s as [|c s IH]; intros a; [discriminate|].
  cbn [Re.search_zip].
  destruct (Ascii.eqb_spec c ",") as [->|Hc].
  - destruct (Re.zip_tail s) as [z'|] eqn:Ez.
    + intros [= <- <-]. now exists s.
    + destruct (Ascii.eqb "," newline); [discriminate|].
      destruct (Re.search_zip s) as [[a' z']|]; [|discriminate].
      cbn [obind]. intros [= <- <-].
      destruct (IH _ eq_refl) as (rest & -> & Hr). now exists rest.
  - destruct (Ascii.eqb c newline); [discriminate|].
    destruct (Re.search_zip s) as [[a' z']|]; [|discriminate].
    cbn [obind]. intros [= <- <-].
    destruct (IH _ eq_refl) as (rest & -> & Hr). now exists rest.
Qed.

Lemma heading_fields_shape (h c a z : string) :
  heading_fields h = (c, a, z) ->
  tidy c = true /\ tidy a = true /\
  (z = EmptyString \/
   String.length z = 5%nat /\ all_chars is_digit z = true).
Proof.
  unfold heading_fields.
  destruct (match Str.find " - " h with
            | Some (l, r) => (l, r)
            | None => (h, EmptyString)
            end) as [cs az].
  destruct (Re.search_zip az) as [[a' z']|] eqn:E.
  - intros [= <- <- <-]. repeat split; try apply normalize_whitespace_is_tidy.
    right. apply search_zip_some in E as (rest & _ & Hr).
    now apply zip_tail_digits in Hr.
  - intros [= <- <- <-]. repeat split; try apply normalize_whitespace_is_tidy.
    now left.
Qed.

(** X3: the zip code of every record is empty or made of exactly five
    digits. *)
Theorem record_zip_code_shape :
  forall url html r,
    parse_store_page url html = Some r ->
    zip_code r = EmptyString \/
    (String.length (zip_code r) = 5%nat /\
     all_chars is_digit (zip_code r) = true).
Proof.
  intros url html r Hr.
  pose proof (parse_store_page_some _ _ _ Hr)
    as (la & lo & h & _ & _ & _ & _ & _ & _ & Hf & _).
  now apply heading_fields_shape in Hf.
Qed.

Lemma record_zip_code_shape_witness :
  exists r,
    parse_store_page (store_url 12) sample_page = Some r /\
    (zip_code r = EmptyString \/
     (String.length (zip_code r) = 5%nat /\
      all_chars is_digit (zip_code r) = true)).
Proof.
  destruct (parse_store_page (store_url 12) sample_page) as [r|] eqn:E;
    [|vm_compute in E; discriminate E].
  exists r. split; [reflexivity|].
  exact (record_zip_code_shape (store_url 12) sample_page r E).
Defined.

(** X4: the city and state and the street of every record are tidy texts:
    they never begin or end with whitespace and hold no whitespace other
    than single spaces. *)
Theorem record_address_fields_tidy :
  forall url html r,
    parse_store_page url html = Some r ->
    tidy (city_state r) = true /\ tidy (address_line r) = true.
Proof.
  intros url html r Hr.
  pose proof (parse_store_page_some _ _ _ Hr)
    as (la & lo & h & _ & _ & _ & _ & _ & _ & Hf & _).
  apply heading_fields_shape in Hf. tauto.
Qed.

Lemma record_address_fields_tidy_witness :
  exists r,
    parse_store_page (store_url 12) sample_page = Some r /\
    tidy (city_state r) = true /\ tidy (address_line r) = true.
Proof.
  destruct (parse_store_page (store_url 12) sample_page) as [r|] eqn:E;
    [|vm_compute in E; discriminate E].
  exists r. split; [reflexivity|].
  exact (record_address_fields_tidy (store_url 12) sample_page r E).
Defined.

(** ** A heading in the expected form *)

Lemma all_chars_app (f : ascii -> bool) (x y : string) :
  all_chars f (x ++ y) = all_chars f x && all_chars f y.
Proof.
  induction x as [|c x IH]; simpl; [reflexivity|]. now rewrite IH, andb_assoc.
Qed.

Lemma space_not_digit (c : ascii) : is_space c = true -> is_digit c = false.
Proof.
  destruct c as [[|] [|] [|] [|] [|] [|] [|] [|]]; vm_compute; congruence.
Qed.

Lemma single_spaced_no_newline (b : bool) (s : string) :
  single_spaced b s = true -> all_chars not_newline s = true.
Proof.
  revert b. induction s as [|c s IH]; intros b; simpl; [reflexivity|].
  destruct (is_space c) eqn:E.
  - intros H. apply andb_prop in H as [H Hs]. apply andb_prop in H as [Hc _].
    apply Ascii.eqb_eq in Hc. subst c. simpl. exact (IH _ Hs).
  - intros H. rewrite (IH _ H), andb_true_r. unfold not_newline.
    destruct (Ascii.eqb_spec c newline) as [->|_]; [discriminate E|reflexivity].
Qed.

Lemma strip_prefix_long (p s t : string) :
  (String.length p <= String.length s)%nat ->
  is_some (Str.strip_prefix p (s ++ t)) = is_some (Str.strip_prefix p s).
Proof.
  revert s. induction p as [|a p IH]; intros s; simpl; [reflexivity|].
  destruct s as [|b s]; simpl; [lia|].
  intros H. destruct (Ascii.eqb a b); [apply IH; lia|reflexivity].
Qed.

(** The separator is found at the end of [c] when it does not occur
    earlier, not even across the end of [c]. *)
Lemma find_separator (c rest : string) :
  Str.contains " - " (c ++ " -") = false ->
  Str.find " - " (c ++ " - " ++ rest) = Some (c, rest).
Proof.
  unfold Str.contains. induction c as [|x c IH].
  - intros _. destruct rest; reflexivity.
  - change (String x c ++ " -") with (String x (c ++ " -")).
    change (String x c ++ " - " ++ rest) with (String x (c ++ " - " ++ rest)).
    intros H.
    assert (Hp : is_some (Str.strip_prefix " - " (String x (c ++ " - " ++ rest)))
                 = is_some (Str.strip_prefix " - " (String x (c ++ " -")))).
    { change (String x (c ++ " - " ++ rest)) with (String x c ++ " - " ++ rest).
      change (" - " ++ rest) with (" -" ++ " " ++ rest).
      rewrite <- append_assoc. apply strip_prefix_long.
      clear. induction c as [|y c IH]; simpl in *; lia. }
    cbn [Str.find] in H |- *.
    destruct (Str.strip_prefix " - " (String x (c ++ " -"))); [discriminate|].
    destruct (Str.strip_prefix " - " (String x (c ++ " - " ++ rest)));
      [discriminate|].
    destruct (Str.find " - " (c ++ " -")) as [[l r]|] eqn:E; [discriminate|].
    now rewrite IH.
Qed.

Lemma at_end_chars (s : string) : Re.at_end s = true -> all_chars zip_char s = true.
Proof.
  destruct s as [|c [|d s]]; simpl; try discriminate; [reflexivity|].
  intros H. apply Ascii.eqb_eq in H. now subst c.
Qed.

Lemma zip_tail_chars (s z : string) :
  Re.zip_tail s = Some z -> all_chars zip_char s = true.
Proof.
  unfold Re.zip_tail.
  pose proof (span_split is_space s) as Hs.
  pose proof (span_run is_space s) as Hw.
  destruct (Str.span is_space s) as [ws r]. cbn [fst snd] in *.
  destruct (Re.digits_exact 5 r) as [[z' r2]|] eqn:E; [|discriminate].
  cbn [obind]. apply digits_exact_some in E as (Hr & _ & Hd).
  intros H. rewrite Hs, Hr, !all_chars_app.
  assert (Hws : all_chars zip_char ws = true).
  { revert Hw. apply all_chars_weaken. unfold zip_char. now intros c ->. }
  assert (Hz : all_chars zip_char z' = true).
  { revert Hd. apply all_chars_weaken. unfold zip_char. intros c ->.
    now rewrite orb_true_r. }
  rewrite Hws, Hz. cbn [andb].
  destruct r2 as [|c r3]; [reflexivity|].
  destruct (Re.at_end (String c r3)) eqn:Ee; [now apply at_end_chars|].
  destruct (Ascii.eqb_spec c "-") as [->|_]; [|discriminate].
  destruct (Re.digits_exact 4 r3) as [[d4 r4]|] eqn:E4; [|discriminate].
  destruct (Re.at_end r4) eqn:E5; [|discriminate].
  apply digits_exact_some in E4 as (-> & _ & Hd4).
  cbn [all_chars]. rewrite all_chars_app, (at_end_chars _ E5), andb_true_r.
  revert Hd4. apply all_chars_weaken. unfold zip_char. intros c ->.
  now rewrite orb_true_r.
Qed.

Lemma zip_tail_no_comma (x y : string) : Re.zip_tail (x ++ String "," y) = None.
Proof.
  destruct (Re.zip_tail (x ++ String "," y)) as [z|] eqn:E; [|reflexivity].
  apply zip_tail_chars in E. rewrite all_chars_app in E.
  apply andb_prop in E as [_ E]. discriminate E.
Qed.

Lemma zip_tail_format (sp z e : string) :
  all_chars is_space sp = true ->
  String.length z = 5%nat -> all_chars is_digit z = true ->
  zip_extension e = true ->
  Re.zip_tail (sp ++ z ++ e) = Some z.
Proof.
  intros Hsp Hl Hd He. unfold Re.zip_tail.
  destruct z as [|d z']; [discriminate|].
  assert (Hnd : is_space d = false).
  { simpl in Hd. apply andb_prop in Hd as [Hd _].
    destruct (is_space d) eqn:E; [|reflexivity].
    apply space_not_digit in E. congruence. }
  change (String d z' ++ e) with (String d (z' ++ e)).
  rewrite (span_stop is_space sp d (z' ++ e) Hsp Hnd).
  change (String d (z' ++ e)) with (String d z' ++ e).
  rewrite <- Hl, (digits_exact_app _ e Hd). cbn [obind].
  destruct e as [|c t]; [reflexivity|].
  simpl in He. apply andb_prop in He as [He Ht]. apply andb_prop in He as [Hc Hn].
  apply Ascii.eqb_eq in Hc. subst c. apply Nat.eqb_eq in Hn.
  rewrite Ascii.eqb_refl.
  pose proof (digits_exact_app t EmptyString Ht) as H4.
  rewrite Hn in H4.
  assert (Ht0 : t ++ EmptyString = t).
  { clear. induction t as [|c t IH]; simpl; [reflexivity|now rewrite IH]. }
  rewrite Ht0 in H4. now rewrite H4.
Qed.

Lemma search_zip_format (a rest z : string) :
  all_chars not_newline a = true ->
  Re.zip_tail rest = Some z ->
  Re.search_zip (a ++ String "," rest) = Some (a, z).
Proof.
  intros Ha Hr. induction a as [|c a IH].
  - cbn [append Re.search_zip]. rewrite Ascii.eqb_refl, Hr. reflexivity.
  - simpl in Ha. apply andb_prop in Ha as [Hc Ha].
    cbn [append Re.search_zip].
    assert (Hcomma : (if Ascii.eqb c "," then Re.zip_tail (a ++ String "," rest)
                      else None) = None).
    { destruct (Ascii.eqb c ","); [apply zip_tail_no_comma|reflexivity]. }
    rewrite Hcomma. unfold not_newline in Hc. apply negb_true_iff in Hc.
    rewrite Hc, (IH Ha). reflexivity.
Qed.

Lemma heading_fields_format (c a sp z e : string) :
  Str.contains " - " (c ++ " -") = false ->
  all_chars not_newline a = true ->
  all_chars is_space sp = true ->
  String.length z = 5%nat -> all_chars is_digit z = true ->
  zip_extension e = true ->
  heading_fields (c ++ " - " ++ a ++ String "," (sp ++ z ++ e))
  = (normalize_whitespace c, normalize_whitespace a, z).
Proof.
  intros Hc Ha Hsp Hl Hd He. unfold heading_fields.
  rewrite (find_separator c _ Hc).
  rewrite (search_zip_format a _ z Ha (zip_tail_format sp z e Hsp Hl Hd He)).
  now rewrite normalize_whitespace_idem.
Qed.

(** X5: when the normalized heading has the expected form, a city and
    state [c], the separator, a street [a], a comma, optional whitespace,
    five digits [z] and an optional four-digit extension, the record gets
    [c] and [a] normalized and the zip code [z]; the street may itself
    hold commas.  [c] must not hold the separator, nor end with the start
    of one. *)
Theorem heading_in_expected_form :
  forall url html r h c a sp z e,
    parse_store_page url html = Some r ->
    address_heading html = Some h ->
    normalize_whitespace (Re.sub_tags " " O h)
    = c ++ " - " ++ a ++ String "," (sp ++ z ++ e) ->
    Str.contains " - " (c ++ " -") = false ->
    all_chars is_space sp = true ->
    String.length z = 5%nat -> all_chars is_digit z = true ->
    zip_extension e = true ->
    city_state r = normalize_whitespace c /\
    address_line r = normalize_whitespace a /\
    zip_code r = z.
Proof.
  intros url html r h c a sp z e Hr Hh E Hc Hsp Hl Hd He.
  pose proof (parse_store_page_some _ _ _ Hr)
    as (la & lo & h' & _ & _ & Hh' & _ & _ & _ & Hf & _).
  rewrite Hh in Hh'. injection Hh' as <-.
  assert (Ha : all_chars not_newline a = true).
  { pose proof (normalize_whitespace_is_tidy (Re.sub_tags " " O h)) as Ht.
    unfold tidy in Ht. apply andb_prop in Ht as [Ht _].
    apply andb_prop in Ht as [Ht _].
    apply single_spaced_no_newline in Ht. rewrite E in Ht.
    rewrite !all_chars_app in Ht.
    apply andb_prop in Ht as [_ Ht]. apply andb_prop in Ht as [_ Ht].
    now apply andb_prop in Ht as [Ht _]. }
  rewrite E, (heading_fields_format c a sp z e Hc Ha Hsp Hl Hd He) in Hf.
  injection Hf as <- <- <-. auto.
Qed.

Lemma heading_in_expected_form_witness :
  exists r,
    parse_store_page (store_url 12) sample_page = Some r /\
    city_state r = normalize_whitespace "Los Angeles, CA" /\
    address_line r = normalize_whitespace "123 Main St" /\
    zip_code r = "90001".
Proof.
  destruct (parse_store_page (store_url 12) sample_page) as [r|] eqn:E;
    [|vm_compute in E; discriminate E].
  destruct (address_heading sample_page) as [h|] eqn:Eh;
    [|vm_compute in Eh; discriminate Eh].
  exists r. split; [reflexivity|].
  apply (heading_in_expected_form (store_url 12) sample_page r h
           "Los Angeles, CA" "123 Main St" " " "90001" EmptyString E Eh).
  - vm_compute in Eh. injection Eh as <-. vm_compute. reflexivity.
  - vm_compute. reflexivity.
  - reflexivity.
  - reflexivity.
  - reflexivity.
  - reflexivity.
Defined.

(** ** Image, name and path *)

(** X6: the image address of a record never begins with a slash: a path
    relative to the root is always prefixed with the base origin; without
    a store image in the page the image address is empty. *)
Theorem record_image_url_not_root_relative :
  forall url html r,
    parse_store_page url html = Some r ->
    Str.startswith "/" (image_url r) = false /\
    (Re.search_image html = None -> image_url r = EmptyString) /\
    (forall g, Re.search_image html = Some g ->
               image_url r = g \/ image_url r = BASE ++ g).
Proof.
  intros url html r Hr.
  destruct (parse_store_page_optional _ _ _ Hr) as [_ Hi].
  rewrite Hi. cbv zeta. repeat split.
  - destruct (Re.search_image html) as [g|].
    + destruct (Str.startswith "/" g) eqn:E; [reflexivity|exact E].
    + reflexivity.
  - now intros ->.
  - intros g ->. destruct (Str.startswith "/" g); auto.
Qed.

Lemma record_image_url_not_root_relative_witness :
  exists r,
    parse_store_page (store_url 12) sample_page = Some r /\
    Str.startswith "/" (image_url r) = false /\
    (Re.search_image sample_page = None -> image_url r = EmptyString) /\
    (forall g, Re.search_image sample_page = Some g ->
               image_url r = g \/ image_url r = BASE ++ g).
Proof.
  destruct (parse_store_page (store_url 12) sample_page) as [r|] eqn:E;
    [|vm_compute in E; discriminate E].
  exists r. split; [reflexivity|].
  exact (record_image_url_not_root_relative (store_url 12) sample_page r E).
Defined.

(** X7: a body with the required fields but without a title element and
    without a store image still yields a record, for a url whose path
    begins with a digit: its name is the fixed fallback and its image
    address is empty. *)
Theorem record_without_title_and_image :
  forall url html,
    has_required_fields html = true ->
    begins_with_digit (url_path url) = true ->
    Re.search_element "<title>" "</title>" html = None ->
    Re.search_image html = None ->
    exists r,
      parse_store_page url html = Some r /\
      name r = "In-N-Out Burger" /\ image_url r = EmptyString.
Proof.
  intros url html Hreq Hd Ht Hi.
  pose proof (parse_store_page_is_some url html) as H.
  rewrite Hreq, Hd in H.
  destruct (parse_store_page url html) as [r|] eqn:E; [|discriminate].
  exists r. split; [reflexivity|].
  destruct (parse_store_page_optional _ _ _ E) as [Hn Himg].
  rewrite Hn, Himg, Ht, Hi. split; reflexivity.
Qed.

Lemma record_without_title_and_image_witness :
  exists r,
    parse_store_page (store_url 7) plain_page = Some r /\
    name r = "In-N-Out Burger" /\ image_url r = EmptyString.
Proof.
  apply (record_without_title_and_image (store_url 7) plain_page);
    vm_compute; reflexivity.
Defined.

(** X8: the path kept in a record is the url without the base origin and
    without slashes at either end, it begins with the id of the record,
    and the url kept in the record is the url given. *)
Theorem record_slug_and_url :
  forall u html r,
    parse_store_page u html = Some r ->
    slug r = url_path u /\ url r = u /\
    begins_with (Ascii.eqb "/") (slug r) = false /\
    ends_with (Ascii.eqb "/") (slug r) = false /\
    Str.startswith (id r) (slug r) = true.
Proof.
  intros u html r Hr.
  pose proof (parse_store_page_some _ _ _ Hr)
    as (la & lo & h & _ & _ & _ & _ & _ & Hid & _ & Hs & Hu).
  rewrite Hs. repeat split; auto.
  - unfold url_path, Str.strip_chars. apply rstrip_begins, lstrip_begins.
  - unfold url_path, Str.strip_chars. apply rstrip_ends.
  - apply match_digits_leading in Hid as [Hid _].
    destruct (leading_digits_spec (url_path u)) as (rest & Hrest & _).
    rewrite Hid. rewrite Hrest at 2. unfold Str.startswith.
    now rewrite strip_prefix_append.
Qed.

Lemma record_slug_and_url_witness :
  exists r,
    parse_store_page (BASE ++ "/12/menu/") sample_page = Some r /\
    slug r = url_path (BASE ++ "/12/menu/") /\ url r = BASE ++ "/12/menu/" /\
    begins_with (Ascii.eqb "/") (slug r) = false /\
    ends_with (Ascii.eqb "/") (slug r) = false /\
    Str.startswith (id r) (slug r) = true.
Proof.
  destruct (parse_store_page (BASE ++ "/12/menu/") sample_page) as [r|] eqn:E;
    [|vm_compute in E; discriminate E].
  exists r. split; [reflexivity|].
  exact (record_slug_and_url (BASE ++ "/12/menu/") sample_page r E).
Defined.

(** ** What a scan requests and what it returns *)

Lemma iteration_probed (floor : Z) (get : string -> outcome) (stop : Z)
    (st : state) (i : Z) :
  probed (trace (fst (iteration floor get stop st i)))
  = (probed (trace st) ++ [store_url i])%list.
Proof.
  destruct (iteration_trace floor get stop st i) as (prints & Hpr & Htr & _).
  rewrite Htr, probed_app. f_equal. cbn [probed]. f_equal.
  rewrite probed_app.
  assert (Hnil : probed prints = []).
  { clear -Hpr. induction Hpr as [|e l [line ->] _ IHl]; simpl; auto. }
  rewrite Hnil. now destruct (snd (iteration floor get stop st i)).
Qed.

Lemma collect_app (get : string -> outcome) (l1 l2 : list Z) :
  collect get (l1 ++ l2) = (collect get l1 ++ collect get l2)%list.
Proof. unfold collect. apply flat_map_app. Qed.

Lemma collect_length (get : string -> outcome) (ids : list Z) :
  (List.length (collect get ids) <= List.length ids)%nat.
Proof.
  induction ids as [|j ids IH]; simpl; [lia|].
  destruct (probe get j); simpl; lia.
Qed.

Lemma ids_upto_length (n : nat) : List.length (ids_upto n) = n.
Proof.
  unfold ids_upto, range. rewrite length_map, length_seq. lia.
Qed.

(** The requests of a run over [1..n] are those for the ids [1..m] for
    some [m <= n], with [m = n] unless the run ended in [break]; the
    mapping holds the records found at these ids, in order. *)
Lemma run_collect (floor : Z) (get : string -> outcome) (stop : Z) (n : nat) :
  exists m : nat,
    (m <= n)%nat /\
    (snd (run floor get stop n) = false -> m = n) /\
    probed (trace (fst (run floor get stop n))) = map store_url (ids_upto m) /\
    misses (fst (run floor get stop n)) = misses_at get (Z.of_nat m) /\
    found (fst (run floor get stop n)) = collect get (ids_upto m).
Proof.
  induction n as [|n (m & Hle & Hm & Hp & Hmis & Hf)].
  - exists O. repeat split; reflexivity.
  - rewrite run_S. destruct (snd (run floor get stop n)) eqn:Hb.
    + exists m. rewrite Hb. repeat split; auto. discriminate.
    + specialize (Hm eq_refl). subst m. exists (S n). split; [lia|].
      split; [reflexivity|].
      rewrite iteration_probed, iteration_misses, iteration_found.
      rewrite Hp, Hmis, <- misses_at_S, ids_upto_S, map_app, collect_app.
      repeat split.
      cbn [collect flat_map]. rewrite app_nil_r.
      destruct (probe get (Z.of_nat (S n))) as [l|] eqn:El.
      * rewrite <- Hf. apply dict_set_fresh.
        destruct (probe_some get (Z.of_nat (S n)) l ltac:(lia) El) as (Hl & _).
        destruct (run_keys floor get stop n) as (_ & Hk & _).
        intros Hin. destruct (Hk _ Hin) as (j & Hj & E).
        rewrite Hl in E. apply str_inj in E. lia.
      * now rewrite app_nil_r.
Qed.

Lemma store_urls_nodup (n : nat) : NoDup (map store_url (ids_upto n)).
Proof.
  induction n as [|n IH]; [constructor|].
  rewrite ids_upto_S, map_app. apply NoDup_snoc; [exact IH|].
  intros Hin. apply in_map_iff in Hin as (j & Hj & Hin).
  apply store_url_inj in Hj. apply in_ids_upto in Hin. lia.
Qed.

(** X9: whatever the service answers, the requests of a scan are those
    for the ids 1, 2, ..., m in this order, each once, for some m between 0
    and [max_id]; no request is made when [max_id] is below 1. *)
Theorem requests_are_an_initial_segment :
  forall get max_id stop,
    exists m,
      0 <= m <= Z.max 0 max_id /\
      (snd (scan FLOOR get max_id stop) = false -> m = Z.max 0 max_id) /\
      probed (trace (fst (scan FLOOR get max_id stop)))
      = map store_url (range 1 (m + 1)) /\
      NoDup (probed (trace (fst (scan FLOOR get max_id stop)))).
Proof.
  intros get max_id stop. rewrite scan_run.
  destruct (run_collect FLOOR get stop (Z.to_nat max_id))
    as (m & Hle & Hm & Hp & _ & _).
  exists (Z.of_nat m). rewrite range_upto, Nat2Z.id, Hp.
  repeat split; try lia.
  - intros Hb. rewrite (Hm Hb). lia.
  - apply store_urls_nodup.
Qed.

(** X10: the mapping a scan returns holds exactly the records of the ids
    it requested that yield one, keyed by their ids, in the order of the
    requests. *)
Theorem scan_returns_the_hits_in_order :
  forall get max_id stop,
    exists m,
      0 <= m <= Z.max 0 max_id /\
      probed (trace (fst (scan FLOOR get max_id stop)))
      = map store_url (range 1 (m + 1)) /\
      scrape_by_ids get max_id stop = collect get (range 1 (m + 1)).
Proof.
  intros get max_id stop. rewrite scrape_run, scan_run.
  destruct (run_collect FLOOR get stop (Z.to_nat max_id))
    as (m & Hle & _ & Hp & _ & Hf).
  exists (Z.of_nat m). rewrite range_upto, Nat2Z.id, Hp, Hf.
  repeat split; lia.
Qed.

Lemma run_complete (floor : Z) (get : string -> outcome) (stop : Z) (n : nat) :
  (forall j, 1 <= j <= Z.of_nat n -> stop_here floor get stop j = false) ->
  snd (run floor get stop n) = false /\
  probed (trace (fst (run floor get stop n))) = map store_url (ids_upto n) /\
  found (fst (run floor get stop n)) = collect get (ids_upto n).
Proof.
  intros Hno.
  assert (Hb : snd (run floor get stop n) = false).
  { destruct (snd (run floor get stop n)) eqn:Hb; [|reflexivity].
    destruct (run_stopped floor get stop n Hb) as (m & Hm & Hs & _).
    rewrite Hno in Hs by lia. discriminate. }
  destruct (run_collect floor get stop n) as (m & _ & Hm & Hp & _ & Hf).
  rewrite (Hm Hb) in Hp, Hf. auto.
Qed.

(** X11: a scan whose [max_id] is at most the floor (300) never stops
    early, whatever the threshold: every id from 1 to [max_id] is
    requested and the hits among them are returned. *)
Theorem scan_up_to_floor_is_complete :
  forall get max_id stop,
    max_id <= FLOOR ->
    snd (scan FLOOR get max_id stop) = false /\
    probed (trace (fst (scan FLOOR get max_id stop)))
    = map store_url (range 1 (max_id + 1)) /\
    scrape_by_ids get max_id stop = collect get (range 1 (max_id + 1)).
Proof.
  intros get max_id stop Hmax. rewrite scrape_run, scan_run, range_upto.
  apply run_complete. intros j Hj. apply no_stop_up_to_floor. lia.
Qed.

Lemma scan_up_to_floor_is_complete_witness :
  snd (scan FLOOR never_answers 250 1) = false /\
  probed (trace (fst (scan FLOOR never_answers 250 1)))
  = map store_url (range 1 (250 + 1)) /\
  scrape_by_ids never_answers 250 1 = collect never_answers (range 1 (250 + 1)).
Proof.
  apply (scan_up_to_floor_is_complete never_answers 250 1).
  unfold FLOOR. lia.
Defined.

(** ** The miss counter and the early stop *)

(** What the count of consecutive misses at id [n] tells about the ids:
    the last [k] ids are misses, and the id before them, if any, is a
    hit. *)
Lemma misses_at_spec (get : string -> outcome) (n : nat) :
  0 <= misses_at get (Z.of_nat n) <= Z.of_nat n /\
  (forall j, Z.of_nat n - misses_at get (Z.of_nat n) < j <= Z.of_nat n ->
             hit get j = false) /\
  (misses_at get (Z.of_nat n) < Z.of_nat n ->
   hit get (Z.of_nat n - misses_at get (Z.of_nat n)) = true).
Proof.
  induction n as [|n (Hb & Hm & Hh)].
  - assert (H0 : misses_at get (Z.of_nat 0) = 0) by reflexivity.
    rewrite H0. repeat split; intros; lia.
  - rewrite misses_at_S. unfold count_miss.
    destruct (hit get (Z.of_nat (S n))) eqn:E.
    + split; [lia|split].
      * intros j Hj. lia.
      * intros _. now rewrite Z.sub_0_r.
    + split; [lia|split].
      * intros j Hj. destruct (Z.eq_dec j (Z.of_nat (S n))) as [->|Hne];
          [exact E|]. apply Hm. lia.
      * intros Hlt.
        replace (Z.of_nat (S n) - (misses_at get (Z.of_nat n) + 1))
          with (Z.of_nat n - misses_at get (Z.of_nat n)) by lia.
        apply Hh. lia.
Qed.

(** X12: a threshold above [max_id] can never be reached: the scan
    requests every id from 1 to [max_id] and returns the hits among
    them. *)
Theorem threshold_above_max_id_never_stops :
  forall get max_id stop,
    max_id < stop ->
    snd (scan FLOOR get max_id stop) = false /\
    probed (trace (fst (scan FLOOR get max_id stop)))
    = map store_url (range 1 (max_id + 1)) /\
    scrape_by_ids get max_id stop = collect get (range 1 (max_id + 1)).
Proof.
  intros get max_id stop Hmax. rewrite scrape_run, scan_run, range_upto.
  apply run_complete. intros j Hj. unfold stop_here.
  destruct (misses_at_spec get (Z.to_nat j)) as (Hb & _).
  rewrite Z2Nat.id in Hb by lia.
  replace (stop <=? misses_at get j) with false; [reflexivity|].
  symmetry. apply Z.leb_gt. lia.
Qed.

Lemma threshold_above_max_id_never_stops_witness :
  snd (scan FLOOR never_answers 400 401) = false /\
  probed (trace (fst (scan FLOOR never_answers 400 401)))
  = map store_url (range 1 (400 + 1)) /\
  scrape_by_ids never_answers 400 401
  = collect never_answers (range 1 (400 + 1)).
Proof.
  apply (threshold_above_max_id_never_stops never_answers 400 401). lia.
Defined.

(** X13: with a threshold of zero or less the stop condition holds as soon
    as the floor is passed: when [max_id] is above the floor the scan
    requests the ids 1 to 301 and stops, even if every page is a hit. *)
Theorem nonpositive_threshold_stops_after_floor :
  forall get max_id stop,
    stop <= 0 -> FLOOR < max_id ->
    snd (scan FLOOR get max_id stop) = true /\
    probed (trace (fst (scan FLOOR get max_id stop)))
    = map store_url (range 1 (301 + 1)) /\
    scrape_by_ids get max_id stop = collect get (range 1 (301 + 1)).
Proof.
  intros get max_id stop Hs Hmax. unfold FLOOR in Hmax.
  rewrite scrape_run, scan_run.
  destruct (run_first_stop FLOOR get stop (Z.to_nat max_id) 301)
    as (Hb & _ & Hp).
  - lia.
  - unfold stop_here.
    destruct (misses_at_spec get 301) as (Hm & _).
    change (Z.of_nat 301) with 301 in Hm.
    replace (stop <=? misses_at get 301) with true; [reflexivity|].
    symmetry. apply Z.leb_le. lia.
  - intros j Hj. apply no_stop_up_to_floor. unfold FLOOR. lia.
  - repeat split; [exact Hb|exact Hp|].
    destruct (run_collect FLOOR get stop (Z.to_nat max_id))
      as (m & _ & _ & Hp' & _ & Hf).
    rewrite Hf. f_equal. rewrite Hp in Hp'.
    assert (Hlen : List.length (map store_url (range 1 (301 + 1)))
                   = List.length (map store_url (ids_upto m))) by now rewrite Hp'.
    rewrite !length_map, ids_upto_length in Hlen.
    rewrite (range_upto 301), ids_upto_length in Hlen. subst m.
    now rewrite range_upto.
Qed.

Lemma nonpositive_threshold_stops_after_floor_witness :
  snd (scan FLOOR (answers_with 200 sample_page) 1200 0) = true /\
  probed (trace (fst (scan FLOOR (answers_with 200 sample_page) 1200 0)))
  = map store_url (range 1 (301 + 1)) /\
  scrape_by_ids (answers_with 200 sample_page) 1200 0
  = collect (answers_with 200 sample_page) (range 1 (301 + 1)).
Proof.
  apply (nonpositive_threshold_stops_after_floor
           (answers_with 200 sample_page) 1200 0).
  - lia.
  - unfold FLOOR. lia.
Defined.

(** X14: when a scan is over, its miss counter [k] tells how the last
    requests went: with [m] the last id requested, the ids [m-k+1 .. m]
    all were misses and, if there is an id before them, it was a hit; the
    counter is never negative and never above [m]. *)
Theorem miss_counter_counts_trailing_misses :
  forall get max_id stop,
    exists m,
      probed (trace (fst (scan FLOOR get max_id stop)))
      = map store_url (range 1 (m + 1)) /\
      0 <= misses (fst (scan FLOOR get max_id stop)) <= m /\
      (forall j, m - misses (fst (scan FLOOR get max_id stop)) < j <= m ->
                 hit get j = false) /\
      (misses (fst (scan FLOOR get max_id stop)) < m ->
       hit get (m - misses (fst (scan FLOOR get max_id stop))) = true).
Proof.
  intros get max_id stop. rewrite scan_run.
  destruct (run_collect FLOOR get stop (Z.to_nat max_id))
    as (m & _ & _ & Hp & Hmis & _).
  exists (Z.of_nat m). rewrite range_upto, Nat2Z.id, Hp, Hmis.
  split; [reflexivity|]. apply misses_at_spec.
Qed.

(** X15: a scan stops early only above the floor and only after at least
    [stop] consecutive misses: the last id requested is above 300 and the
    [stop] ids up to it all were misses, so that the scan never stops on
    a hit when the threshold is positive. *)
Theorem early_stop_follows_a_run_of_misses :
  forall get max_id stop,
    snd (scan FLOOR get max_id stop) = true ->
    exists i,
      FLOOR < i <= max_id /\
      probed (trace (fst (scan FLOOR get max_id stop)))
      = map store_url (range 1 (i + 1)) /\
      (forall j, i - stop < j <= i -> 1 <= j /\ hit get j = false).
Proof.
  intros get max_id stop. rewrite scan_run. intros Hb.
  destruct (run_stopped FLOOR get stop _ Hb) as (m & Hm & Hs & _ & _ & Hp).
  unfold stop_here in Hs. apply andb_prop in Hs as [Hs1 Hs2].
  apply Z.leb_le in Hs1. apply Z.ltb_lt in Hs2.
  exists (Z.of_nat m). rewrite range_upto, Nat2Z.id.
  repeat split; try lia; auto.
  - destruct (misses_at_spec get m) as (Hbd & _). lia.
  - destruct (misses_at_spec get m) as (_ & Hmiss & _). apply Hmiss. lia.
Qed.

Lemma early_stop_follows_a_run_of_misses_witness :
  exists i,
    FLOOR < i <= 1200 /\
    probed (trace (fst (scan FLOOR never_answers 1200 3)))
    = map store_url (range 1 (i + 1)) /\
    (forall j, i - 3 < j <= i -> 1 <= j /\ hit never_answers j = false).
Proof.
  apply (early_stop_follows_a_run_of_misses never_answers 1200 3).
  vm_compute. reflexivity.
Defined.

(** ** The output of [main] *)

Lemma digits_value_acc (d : Decimal.uint) (acc : positive) :
  PyFloat.digits_value (Npos acc) (NilEmpty.string_of_uint d)
  = Npos (Pos.of_uint_acc d acc).
Proof.
  revert acc. induction d; intros acc; cbn [NilEmpty.string_of_uint
    PyFloat.digits_value Pos.of_uint_acc]; [reflexivity|..];
    rewrite <- IHd; f_equal; unfold digit_val;
    match goal with
    | |- context [N_of_ascii ?c] =>
        let v := eval vm_compute in (N_of_ascii c) in
        change (N_of_ascii c) with v
    end; lia.
Qed.

Lemma digits_value_of_uint (d : Decimal.uint) :
  PyFloat.digits_value 0 (NilEmpty.string_of_uint d) = Pos.of_uint d.
Proof.
  induction d; cbn [NilEmpty.string_of_uint PyFloat.digits_value Pos.of_uint];
    [reflexivity|exact IHd|..]; apply (digits_value_acc d).
Qed.

(** [int] reads back what [str] wrote. *)
Lemma py_int_str (i : Z) : 0 <= i -> py_int (str i) = Some i.
Proof.
  intros Hi. destruct (str_digits i Hi) as [Hd Hb].
  rewrite (py_int_digits _ Hd Hb). f_equal.
  destruct i as [|p|p]; [reflexivity| |lia].
  unfold str. cbn [Z.to_int NilEmpty.string_of_int].
  now rewrite digits_value_of_uint, DecimalPos.Unsigned.of_to.
Qed.

Lemma with_keys_collect (get : string -> outcome) (ids : list Z) :
  Forall (fun j => 1 <= j) ids ->
  with_keys (collect get ids)
  = Some (flat_map (fun j => match probe get j with
                             | Some l => [(j, l)]
                             | None => []
                             end) ids).
Proof.
  induction 1 as [|j ids Hj _ IH]; [reflexivity|].
  cbn [collect flat_map]. fold (collect get ids).
  destruct (probe get j) as [l|] eqn:El; [|exact IH].
  destruct (probe_some get j l Hj El) as (Hl & _).
  cbn [app with_keys]. rewrite Hl, py_int_str by lia. cbn [obind].
  now rewrite IH.
Qed.

Lemma sort_by_key_sorted_fix {A : Type} (l : list (Z * A)) :
  StronglySorted (fun p q => fst p <= fst q) l -> sort_by_key l = l.
Proof.
  induction 1 as [|x l Hl IH Hx]; [reflexivity|].
  cbn [sort_by_key]. rewrite IH. destruct l as [|y l]; [reflexivity|].
  cbn [insert_by_key]. inversion Hx as [|? ? Hxy _]; subst.
  apply Z.leb_le in Hxy. now rewrite Hxy.
Qed.

Lemma keyed_hits_sorted (get : string -> outcome) (ids : list Z) :
  StronglySorted Z.le ids ->
  StronglySorted (fun p q : Z * Location => fst p <= fst q)
    (flat_map (fun j => match probe get j with
                        | Some l => [(j, l)]
                        | None => []
                        end) ids).
Proof.
  induction 1 as [|j ids Hs IH Hj]; [constructor|].
  cbn [flat_map]. destruct (probe get j) as [l|]; [|exact IH].
  cbn [app]. constructor; [exact IH|].
  apply Forall_forall. intros [k v] Hin. apply in_flat_map in Hin as (i & Hi & Hin).
  rewrite Forall_forall in Hj. specialize (Hj i Hi).
  destruct (probe get i); [|contradiction].
  destruct Hin as [[= <- <-]|[]]. exact Hj.
Qed.

Lemma ids_upto_sorted (n : nat) : StronglySorted Z.le (ids_upto n).
Proof.
  induction n as [|n IH]; [constructor|].
  rewrite ids_upto_S.
  assert (Happ : forall (l : list Z) (x : Z),
             StronglySorted Z.le l -> Forall (fun y => y <= x) l ->
             StronglySorted Z.le (l ++ [x])).
  { clear. induction l as [|a l IHl]; intros x Hs Hf; simpl.
    - repeat constructor.
    - inversion Hs; subst. inversion Hf; subst. constructor; [now apply IHl|].
      apply Forall_app. split; [assumption|]. now repeat constructor. }
  apply Happ; [exact IH|]. apply Forall_forall. intros y Hy.
  apply in_ids_upto in Hy. lia.
Qed.

Lemma locations_collect (get : string -> outcome) (n : nat) :
  locations (collect get (ids_upto n)) = Some (map snd (collect get (ids_upto n))).
Proof.
  unfold locations. rewrite with_keys_collect.
  - cbn [obind]. rewrite sort_by_key_sorted_fix
      by apply keyed_hits_sorted, ids_upto_sorted.
    f_equal. unfold collect. generalize (ids_upto n). intros ids.
    induction ids as [|j ids IH]; [reflexivity|].
    cbn [flat_map]. rewrite !map_app, IH. now destruct (probe get j).
  - apply Forall_forall. intros j Hj. apply in_ids_upto in Hj. lia.
Qed.

Lemma locations_scan (get : string -> outcome) (max_id stop : Z) :
  locations (scrape_by_ids get max_id stop)
  = Some (map snd (scrape_by_ids get max_id stop)).
Proof.
  rewrite scrape_run.
  destruct (run_collect FLOOR get stop (Z.to_nat max_id))
    as (m & _ & _ & _ & _ & Hf).
  rewrite Hf. apply locations_collect.
Qed.

(** X16: the mapping a scan returns is already in ascending numeric order
    of its keys, so that the sort of the output stage changes nothing: the
    emitted sequence is the records of the mapping in the order they were
    found, and the sort key never raises. *)
Theorem scan_output_keeps_scan_order :
  forall get max_id stop,
    locations (scrape_by_ids get max_id stop)
    = Some (map snd (scrape_by_ids get max_id stop)).
Proof. intros get max_id stop. apply locations_scan. Qed.

(** X17: [main] always builds a document, whatever the service answers:
    its count is the number of emitted records, at most 1200, the emitted
    records are those of the scan with the default bounds in the order
    they were found, each has the decimal text of an id between 1 and
    1200 as id, and the time stamp is the clock reading. *)
Theorem main_document :
  forall get now,
    exists d,
      main get now = Some d /\
      doc_generated_at d = now /\
      doc_locations d = map snd (scrape_by_ids get 1200 180) /\
      doc_count d = Z.of_nat (List.length (doc_locations d)) /\
      0 <= doc_count d <= 1200 /\
      Forall (fun l => exists j, 1 <= j <= 1200 /\ id l = str j)
             (doc_locations d).
Proof.
  intros get now. unfold main.
  rewrite locations_scan. cbn [obind].
  eexists. split; [reflexivity|]. cbn [doc_generated_at doc_locations doc_count].
  rewrite length_map. repeat split; try lia.
  - rewrite scrape_run.
    destruct (run_collect FLOOR get 180 (Z.to_nat 1200))
      as (m & Hle & _ & _ & _ & Hf).
    rewrite Hf. pose proof (collect_length get (ids_upto m)) as Hl.
    rewrite ids_upto_length in Hl. lia.
  - rewrite scrape_run. apply Forall_forall. intros l Hl.
    apply in_map_iff in Hl as ([k v] & <- & Hin). cbn [snd].
    destruct (run_keys FLOOR get 180 (Z.to_nat 1200)) as (_ & Hk & Hid).
    rewrite Forall_forall in Hid. specialize (Hid _ Hin). cbn [fst snd] in Hid.
    destruct (Hk k) as (j & Hj & E); [now apply (in_map fst) in Hin|].
    exists j. split; [lia|]. now rewrite <- Hid.
Qed.

(** ** The whole trace, the base origin, the name and the empty body *)

Lemma iteration_trace_exact (floor : Z) (get : string -> outcome) (stop : Z)
    (st : state) (i : Z) :
  trace (fst (iteration floor get stop st i))
  = (trace st
     ++ Get (store_url i) 12
     :: (if i mod 100 =? 0
         then [Print (progress_line i
                        (found (fst (iteration floor get stop st i)))
                        (misses (fst (iteration floor get stop st i))))]
         else [])
     ++ (if snd (iteration floor get stop st i)
         then [Print (stop_line i (misses (fst (iteration floor get stop st i))))]
         else [Sleep 30]))%list.
Proof.
  unfold iteration.
  destruct (i mod 100 =? 0); destruct (_ && _); cbn [fst snd trace found misses];
    rewrite <- ?app_assoc; reflexivity.
Qed.

Lemma run_trace (get : string -> outcome) (stop : Z) (n : nat) :
  exists m : nat,
    (m <= n)%nat /\
    (snd (run FLOOR get stop n) = false -> m = n) /\
    trace (fst (run FLOOR get stop n))
    = flat_map (turn_events get stop) (ids_upto m).
Proof.
  induction n as [|n (m & Hle & Hm & Ht)].
  - exists O. repeat split; reflexivity.
  - rewrite run_S. destruct (snd (run FLOOR get stop n)) eqn:Hb.
    + exists m. rewrite Hb. repeat split; auto. discriminate.
    + specialize (Hm eq_refl). subst m. exists (S n). split; [lia|].
      split; [reflexivity|].
      rewrite iteration_trace_exact, Ht, ids_upto_S, flat_map_app.
      f_equal. cbn [flat_map]. rewrite app_nil_r. unfold turn_events.
      rewrite iteration_found, iteration_misses, iteration_break.
      destruct (run_collect FLOOR get stop n) as (m & _ & Hm & _ & Hmis & Hf).
      rewrite (Hm Hb) in Hmis, Hf. rewrite Hmis, <- misses_at_S.
      assert (Hfound :
        match probe get (Z.of_nat (S n)) with
        | Some l => dict_set (id l) l (found (fst (run FLOOR get stop n)))
        | None => found (fst (run FLOOR get stop n))
        end = collect get (range 1 (Z.of_nat (S n) + 1))).
      { fold (ids_upto (S n)). rewrite ids_upto_S, collect_app, <- Hf.
        cbn [collect flat_map]. rewrite app_nil_r.
        destruct (probe get (Z.of_nat (S n))) as [l|] eqn:El;
          [|now rewrite app_nil_r].
        apply dict_set_fresh.
        destruct (probe_some get (Z.of_nat (S n)) l ltac:(lia) El) as (Hl & _).
        destruct (run_keys FLOOR get stop n) as (_ & Hk & _).
        intros Hin. destruct (Hk _ Hin) as (j & Hj & E).
        rewrite Hl in E. apply str_inj in E. lia. }
      rewrite Hfound. reflexivity.
Qed.

(** X18: the whole trace of a scan is determined by the answers of the
    service: it is, for the ids 1 to m requested, the request (with a
    timeout of 12), at every hundredth id a progress line telling the id,
    the number of records found so far and the count of consecutive
    misses, and then the delay, or the stop message at the id that ends
    the scan early. *)
Theorem trace_of_a_scan :
  forall get max_id stop,
    exists m,
      0 <= m <= Z.max 0 max_id /\
      (snd (scan FLOOR get max_id stop) = false -> m = Z.max 0 max_id) /\
      trace (fst (scan FLOOR get max_id stop))
      = flat_map (turn_events get stop) (range 1 (m + 1)).
Proof.
  intros get max_id stop. rewrite scan_run.
  destruct (run_trace get stop (Z.to_nat max_id)) as (m & Hle & Hm & Ht).
  exists (Z.of_nat m). rewrite range_upto, Nat2Z.id, Ht.
  repeat split; try lia. intros Hb. rewrite (Hm Hb). lia.
Qed.

(** X19: the base origin in a url is optional for the extractor: a url
    and the same url with the base origin put in front give records that
    differ in the url field only. *)
Theorem base_origin_is_optional :
  forall p html,
    url_path (BASE ++ p) = url_path p /\
    option_map (fun r => (id r, slug r, name r, city_state r, address_line r,
                          zip_code r, latitude r, longitude r, image_url r))
               (parse_store_page (BASE ++ p) html)
    = option_map (fun r => (id r, slug r, name r, city_state r, address_line r,
                            zip_code r, latitude r, longitude r, image_url r))
                 (parse_store_page p html).
Proof.
  intros p html.
  assert (Hp : url_path (BASE ++ p) = url_path p).
  { unfold url_path.
    change BASE with (String "h" "ttps://locations.in-n-out.com").
    now rewrite replace_prefix. }
  split; [exact Hp|].
  unfold parse_store_page. rewrite Hp.
  destruct (Re.search_attr "data-latitude" html) as [la|]; [|reflexivity].
  destruct (Re.search_attr "data-longitude" html) as [lo|]; [|reflexivity].
  destruct (Re.search_element _ "</h3>" html) as [h|]; [|reflexivity].
  destruct (Re.match_digits (url_path p)) as [d|]; [|reflexivity].
  destruct (heading_fields _) as [[cs al] zc].
  destruct (PyFloat.of_string la) as [x|]; [|reflexivity].
  destruct (PyFloat.of_string lo) as [y|]; reflexivity.
Qed.

Lemma strip_prefix_mono (p s r x : string) :
  Str.strip_prefix p s = Some r -> Str.strip_prefix p (s ++ x) = Some (r ++ x).
Proof.
  revert s. induction p as [|a p IH]; intros s; simpl.
  - now intros [= ->].
  - destruct s as [|b s]; [discriminate|]. simpl.
    destruct (Ascii.eqb a b); [apply IH|discriminate].
Qed.

(** The text before the first occurrence of a separator holds no
    occurrence of it. *)
Lemma find_before (c : ascii) (sep s a b : string) :
  Str.find (String c sep) s = Some (a, b) -> Str.find (String c sep) a = None.
Proof.
  revert a. induction s as [|x s IH]; intros a.
  - cbn [Str.find Str.strip_prefix]. discriminate.
  - cbn [Str.find].
    destruct (Str.strip_prefix (String c sep) (String x s)) as [r|] eqn:Ep.
    + intros [= <- <-]. reflexivity.
    + destruct (Str.find (String c sep) s) as [[a' b']|] eqn:Ef; [|discriminate].
      intros [= <- <-]. cbn [Str.find].
      apply find_some in Ef. rewrite Ef in Ep.
      destruct (Str.strip_prefix (String c sep) (String x a')) as [r|] eqn:Ea.
      * apply (strip_prefix_mono _ _ _ (String c sep ++ b')) in Ea.
        change (String x a' ++ String c sep ++ b')
          with (String x (a' ++ String c sep ++ b')) in Ea. congruence.
      * now rewrite (IH a' eq_refl).
Qed.

(** The separator found first is the first one: none begins before the
    end of the text in front of it. *)
Lemma find_first (s a b : string) :
  Str.find " - " s = Some (a, b) -> Str.contains " - " (a ++ " -") = false.
Proof.
  unfold Str.contains. revert a. induction s as [|x s IH]; intros a.
  - cbn [Str.find Str.strip_prefix]. discriminate.
  - cbn [Str.find].
    destruct (Str.strip_prefix " - " (String x s)) as [r|] eqn:Ep.
    + intros [= <- <-]. reflexivity.
    + destruct (Str.find " - " s) as [[a' b']|] eqn:Ef; [|discriminate].
      intros [= <- <-].
      change (String x a' ++ " -") with (String x (a' ++ " -")).
      pose proof (IH a' eq_refl) as Hrec. cbn [Str.find].
      assert (Hp : is_some (Str.strip_prefix " - " (String x (a' ++ " -")))
                   = is_some (Str.strip_prefix " - " (String x s))).
      { apply find_some in Ef. rewrite Ef.
        change (String x (a' ++ " - " ++ b'))
          with (String x a' ++ " -" ++ " " ++ b').
        rewrite <- append_assoc. symmetry. apply strip_prefix_long.
        clear. induction a' as [|y a' IHa]; simpl in *; lia. }
      rewrite Ep in Hp.
      destruct (Str.strip_prefix " - " (String x (a' ++ " -")));
        [discriminate|].
      now destruct (Str.find " - " (a' ++ " -")) as [[l r]|].
Qed.

(** X20: the name of a record is the text before the first separator of
    the title, once its tags are removed and its whitespace normalized,
    so that it never holds the separator; it is the fixed fallback when
    the title has no separator or is missing. *)
Theorem record_name_from_title :
  forall url html r,
    parse_store_page url html = Some r ->
    Str.contains " - " (name r) = false /\
    (Re.search_element "<title>" "</title>" html = None ->
     name r = "In-N-Out Burger") /\
    (forall g,
       Re.search_element "<title>" "</title>" html = Some g ->
       let t := normalize_whitespace (Re.sub_tags EmptyString O g) in
       (Str.contains " - " t = false -> name r = "In-N-Out Burger") /\
       (Str.contains " - " t = true ->
        exists rest,
          t = name r ++ " - " ++ rest /\
          Str.contains " - " (name r ++ " -") = false)).
Proof.
  intros url html r Hr.
  destruct (parse_store_page_optional _ _ _ Hr) as [Hn _].
  rewrite Hn. unfold title_name. repeat split.
  - unfold Str.contains.
    destruct (Re.search_element "<title>" "</title>" html) as [g|]; [|reflexivity].
    destruct (Str.find " - " (normalize_whitespace (Re.sub_tags EmptyString O g)))
      as [[l x]|] eqn:E; [|reflexivity].
    now rewrite (find_before _ _ _ _ _ E).
  - now intros ->.
  - unfold Str.contains in *.
    rewrite H in *.
    now destruct (Str.find " - " (normalize_whitespace (Re.sub_tags EmptyString O g))).
  - unfold Str.contains in *. rewrite H.
    destruct (Str.find " - " (normalize_whitespace (Re.sub_tags EmptyString O g)))
      as [[l x]|] eqn:E; [|discriminate].
    exists x. split; [now apply find_some|]. now apply (find_first _ _ _ E).
Qed.

Lemma record_name_from_title_witness :
  exists r,
    parse_store_page (store_url 12) titled_page = Some r /\
    name r = "Store 12" /\ Str.contains " - " (name r) = false.
Proof.
  destruct (parse_store_page (store_url 12) titled_page) as [r|] eqn:E;
    [|vm_compute in E; discriminate E].
  destruct (record_name_from_title (store_url 12) titled_page r E)
    as (Hc & _ & Ht).
  exists r. split; [reflexivity|]. split; [|exact Hc].
  destruct (Re.search_element "<title>" "</title>" titled_page) as [g|] eqn:Eg;
    [|vm_compute in Eg; discriminate Eg].
  destruct (Ht g eq_refl) as [_ Hsep].
  vm_compute in Eg. injection Eg as <-.
  destruct Hsep as (rest & Hdec & Hfirst); [vm_compute; reflexivity|].
  pose proof (find_separator _ rest Hfirst) as Hfind.
  rewrite <- Hdec in Hfind.
  match type of Hfind with
  | Str.find ?sep ?t = _ =>
      let v := eval vm_compute in (Str.find sep t) in
      change (Str.find sep t) with v in Hfind
  end.
  injection Hfind as Hname _. now rewrite <- Hname.
Defined.

(** X21: the extractor returns absent on the empty body for every url, so
    that the scanner's test of the body is a shortcut: the record of a
    turn is what the extractor returns on the body fetched, empty or
    not. *)
Theorem empty_body_is_absent :
  forall get u i,
    parse_store_page u EmptyString = None /\
    probe get i = parse_store_page (store_url i) (fetch_html get (store_url i)).
Proof.
  intros get u i. split; [reflexivity|]. unfold probe.
  destruct (String.eqb_spec (fetch_html get (store_url i)) EmptyString) as [->|_];
    reflexivity.
Qed.
